(** * MyMediaHub: the persistence layer of [database.py] and [setup_database.py]

    A shallow embedding of the record store ([DatabaseModel]) and of the user
    registry ([UserManager]), together with the two SQL schemas they run on.

    The program talks to SQLite through parameterised SQL statements.  Each
    statement is embedded as a function on the table it reads or writes; the
    Python method around it is embedded as the same statement followed by the
    method's [try]/[except] translation of [sqlite3.Error].

    Conventions.
    - A Python [str] is a [string] whose characters are code points below
      U+0100; [None] is the [None] of an [option].  The [Media] dataclass
      does not check its annotations, so every field can hold [None], which
      SQLite stores as NULL.
    - A Python [int] is a [Z]; counts are [nat].  An identifier that a
      caller passes is bound to the statement only if it fits the 64 bits of
      an SQLite INTEGER; the properties of lookups by such an identifier
      state that range ([int64]) as a hypothesis, and what Python does
      outside it ([OverflowError]) is not part of the model.
    - A REAL value (the rating, the average) is a binary64 number: a finite
      one is the rational [Qc] it is, and the arithmetic on them rounds as
      IEEE 754 does (section "Binary floating point").  A rating is finite.
    - [CURRENT_TIMESTAMP] is an explicit argument [now] of the operation that
      reads the clock.
    - A path is a file name in the working directory; directories below it
      are not modelled. *)

From Stdlib Require Import Ascii QArith Qcanon Qround Qabs Qpower Lqa.
From stdpp Require Import base numbers list sorting strings gmap fin_maps.

Local Open Scope Z_scope.

(** ** Exceptions and results *)

(** The exceptions the two modules can see: the two subclasses of
    [sqlite3.Error] that the statements below can raise, and the builtin
    [Exception] that every method raises in their place. *)
Inductive exn : Type :=
| IntegrityError (msg : string)
| OperationalError (msg : string)
| Exception (msg : string).

(** [isinstance(e, sqlite3.Error)] *)
Definition is_sqlite3_Error (e : exn) : bool :=
  match e with
  | IntegrityError _ | OperationalError _ => true
  | Exception _ => false
  end.

(** [isinstance(e, sqlite3.IntegrityError)] *)
Definition is_IntegrityError (e : exn) : bool :=
  match e with
  | IntegrityError _ => true
  | _ => false
  end.

(** [str(e)] *)
Definition exn_str (e : exn) : string :=
  match e with
  | IntegrityError msg | OperationalError msg | Exception msg => msg
  end.

Inductive result (A : Type) : Type :=
| Ok (a : A)
| Raise (e : exn).
Arguments Ok {A} a.
Arguments Raise {A} e.

(** A method of a connection: it returns or raises, and leaves a new state. *)
Definition method (S A : Type) : Type := S → result A * S.

#[export] Instance method_ret {S} : MRet (method S) := λ A a s, (Ok a, s).

#[export] Instance method_bind {S} : MBind (method S) :=
  λ A B f m s,
    match m s with
    | (Ok a, s') => f a s'
    | (Raise e, s') => (Raise e, s')
    end.

(** A [for] loop that threads an accumulator through its body. *)
Fixpoint for_each {S A B} (l : list A) (body : B → A → method S B) (acc : B)
  : method S B :=
  match l with
  | [] => mret acc
  | x :: l' => acc' ← body acc x; for_each l' body acc'
  end.

(** [try: body  except sqlite3.Error as e: raise Exception(f"{prefix}{e}")] *)
Definition except_sqlite3_Error {S A} (prefix : string) (body : method S A)
  : method S A :=
  λ s,
    match body s with
    | (Ok a, s') => (Ok a, s')
    | (Raise e, s') =>
        if is_sqlite3_Error e
        then (Raise (Exception (prefix +:+ exn_str e)), s')
        else (Raise e, s')
    end.

(** ** SQL values *)

(** [a = b] in a WHERE clause: true only when both sides are non-NULL. *)
Definition sql_eq {A} `{EqDecision A} (a b : option A) : bool :=
  match a, b with
  | Some x, Some y => bool_decide (x = y)
  | _, _ => false
  end.

(** The order of ORDER BY on a TEXT column under the BINARY collation: NULL
    sorts before every text, texts compare character by character. *)
Definition text_le (a b : option string) : bool :=
  match a, b with
  | None, _ => true
  | Some _, None => false
  | Some x, Some y => String.leb x y
  end.

(** SQLite folds case in LIKE for the 26 ASCII letters only. *)
Definition ascii_lower (c : ascii) : ascii :=
  let n := Ascii.N_of_ascii c in
  if ((65 <=? n) && (n <=? 90))%N then Ascii.ascii_of_N (n + 32) else c.

Fixpoint string_lower (s : string) : string :=
  match s with
  | EmptyString => EmptyString
  | String c s' => String (ascii_lower c) (string_lower s')
  end.

(** [s LIKE pat] without ESCAPE: [%] matches any run of characters, [_] any
    one character, every other character itself up to ASCII case. *)
Fixpoint like (pat s : string) : bool :=
  match pat with
  | EmptyString =>
      match s with
      | EmptyString => true
      | String _ _ => false
      end
  | String p pat' =>
      if Ascii.eqb p "%"%char
      then
        (fix skip (s : string) : bool :=
           like pat' s
           || match s with
              | EmptyString => false
              | String _ s' => skip s'
              end) s
      else
        match s with
        | EmptyString => false
        | String c s' =>
            (Ascii.eqb p "_"%char || Ascii.eqb (ascii_lower p) (ascii_lower c))
            && like pat' s'
        end
  end.

(** SQLite reads the two operands of LIKE as C strings: each ends at its
    first NUL character. *)
Fixpoint c_str (s : string) : string :=
  match s with
  | EmptyString => EmptyString
  | String c s' =>
      if Ascii.eqb c "000"%char then EmptyString else String c (c_str s')
  end.

(** [title LIKE ?] as a WHERE condition, with NULL on either side false. *)
Definition sql_like (s pat : option string) : bool :=
  match s, pat with
  | Some s, Some pat => like (c_str pat) (c_str s)
  | _, _ => false
  end.

(** The number of bytes of a text in UTF-8: one for a character below
    U+0080, two for the others. *)
Fixpoint utf8_length (s : string) : Z :=
  match s with
  | EmptyString => 0
  | String c s' =>
      (if (Ascii.N_of_ascii c <? 128)%N then 1 else 2) + utf8_length s'
  end.

(** The default of SQLITE_LIMIT_LIKE_PATTERN_LENGTH, in bytes. *)
Definition SQLITE_MAX_LIKE_PATTERN_LENGTH : Z := 50000.

(** ** The Media entity and the Media table *)

(** [@dataclass class Media] *)
Record Media : Type := mkMedia {
  id : option Z;
  title : option string;
  media_type : option string;
  genre : option string;
  release_date : option string;
  director : option string;
  description : option string;
  rating : option Qc;
  status : option string;
  image_path : option string;
  date_added : option string
}.

(** The dataclass defaults: [Media()]. *)
Definition Media_default : Media :=
  {| id := None; title := Some ""; media_type := Some ""; genre := Some "";
     release_date := Some ""; director := Some ""; description := Some "";
     rating := None; status := Some "To Read"; image_path := Some "";
     date_added := Some "" |}.

(** One row of the table created by [setup_media_database]:
    [id INTEGER PRIMARY KEY AUTOINCREMENT], nine data columns and
    [date_added]. *)
Record Row : Type := mkRow {
  row_id : Z;
  row_title : option string;
  row_media_type : option string;
  row_genre : option string;
  row_release_date : option string;
  row_director : option string;
  row_description : option string;
  row_rating : option Qc;
  row_status : option string;
  row_image_path : option string;
  row_date_added : option string
}.

(** The Media table: its rows in insertion order, which with AUTOINCREMENT
    is the order of the rowids and of a table scan, and the counter that
    AUTOINCREMENT keeps in [sqlite_sequence]. *)
Record MediaTable : Type := mkMediaTable {
  rows : list Row;
  seq : Z
}.

(** The table right after CREATE TABLE. *)
Definition empty_table : MediaTable := {| rows := []; seq := 0 |}.

(** [DatabaseModel._row_to_media] on a row that is not [None]. *)
Definition _row_to_media (row : Row) : Media :=
  {| id := Some (row_id row);
     title := row_title row;
     media_type := row_media_type row;
     genre := row_genre row;
     release_date := row_release_date row;
     director := row_director row;
     description := row_description row;
     rating := row_rating row;
     status := row_status row;
     image_path := row_image_path row;
     date_added := row_date_added row |}.

(** ORDER BY on a TEXT column. *)
Definition order_by_asc (key : Row → option string) (l : list Row) : list Row :=
  merge_sort (λ r1 r2, Is_true (text_le (key r1) (key r2))) l.

Definition order_by_desc (key : Row → option string) (l : list Row) : list Row :=
  merge_sort (λ r1 r2, Is_true (text_le (key r2) (key r1))) l.

(** The largest rowid in the table, 0 when it is empty. *)
Definition max_rowid (l : list Row) : Z :=
  foldr (λ r acc, Z.max (row_id r) acc) 0 l.

(** The first violated NOT NULL constraint of the schema, if any. *)
Definition not_null_violation (media : Media) : option string :=
  match title media, media_type media with
  | None, _ => Some "NOT NULL constraint failed: Media.title"
  | Some _, None => Some "NOT NULL constraint failed: Media.media_type"
  | Some _, Some _ => None
  end.

(** ** The statements of [DatabaseModel] *)

(** A record store is the Media table of one database file, or [None] while
    the file has no such table. *)
Abbreviation Store := (option MediaTable).

(** [cursor.execute] of a statement on the Media table. *)
Definition execute {A} (stmt : method MediaTable A) : method Store A :=
  λ s,
    match s with
    | None => (Raise (OperationalError "no such table: Media"), None)
    | Some t => let '(r, t') := stmt t in (r, Some t')
    end.

(** A statement that only reads. *)
Definition query {T A} (f : T → A) : method T A := λ t, (Ok (f t), t).

(** [SELECT * FROM Media ORDER BY date_added DESC] *)
Definition select_all (t : MediaTable) : list Row :=
  order_by_desc row_date_added (rows t).

(** [SELECT * FROM Media WHERE id = ?], then [fetchone()] *)
Definition select_by_id (media_id : Z) (t : MediaTable) : option Row :=
  head (filter (λ r, row_id r = media_id) (rows t)).

(** The rows of [SELECT * FROM Media WHERE title LIKE ? ORDER BY title
    ASC]. *)
Definition rows_title_like (pat : string) (t : MediaTable) : list Row :=
  order_by_asc row_title
    (filter (λ r, Is_true (sql_like (row_title r) (Some pat))) (rows t)).

(** The statement itself.  LIKE refuses a pattern of more than
    SQLITE_MAX_LIKE_PATTERN_LENGTH bytes when it is evaluated, that is as
    soon as the table has a row. *)
Definition select_title_like (pat : string) : method MediaTable (list Row) :=
  λ t,
    if bool_decide (rows t ≠ [])
       && (SQLITE_MAX_LIKE_PATTERN_LENGTH <? utf8_length pat)
    then (Raise (OperationalError "LIKE or GLOB pattern too complex"), t)
    else (Ok (rows_title_like pat t), t).

(** [SELECT * FROM Media WHERE media_type = ? ORDER BY title ASC] *)
Definition select_by_type (ty : string) (t : MediaTable) : list Row :=
  order_by_asc row_title
    (filter (λ r, Is_true (sql_eq (row_media_type r) (Some ty))) (rows t)).

(** [SELECT * FROM Media WHERE status = ? ORDER BY title ASC] *)
Definition select_by_status (st : string) (t : MediaTable) : list Row :=
  order_by_asc row_title
    (filter (λ r, Is_true (sql_eq (row_status r) (Some st))) (rows t)).

(** The row that the INSERT below writes: the nine bound columns, the
    rowid from AUTOINCREMENT and [date_added] from DEFAULT
    CURRENT_TIMESTAMP. *)
Definition row_of (rowid : Z) (now : string) (media : Media) : Row :=
  {| row_id := rowid;
     row_title := title media;
     row_media_type := media_type media;
     row_genre := genre media;
     row_release_date := release_date media;
     row_director := director media;
     row_description := description media;
     row_rating := rating media;
     row_status := status media;
     row_image_path := image_path media;
     row_date_added := Some now |}.

(** [INSERT INTO Media (title, ..., image_path) VALUES (?, ..., ?)] and
    [commit()]; the result is [cursor.lastrowid].  [id] and [date_added] are
    not among the inserted columns: the first comes from AUTOINCREMENT, the
    second from DEFAULT CURRENT_TIMESTAMP. *)
Definition insert_media (now : string) (media : Media) : method MediaTable Z :=
  λ t,
    match not_null_violation media with
    | Some msg => (Raise (IntegrityError msg), t)
    | None =>
        let rowid := Z.max (seq t) (max_rowid (rows t)) + 1 in
        (Ok rowid,
         {| rows := rows t ++ [row_of rowid now media]; seq := rowid |})
    end.

(** The SET clause of the UPDATE applied to one row. *)
Definition set_columns (media : Media) (r : Row) : Row :=
  {| row_id := row_id r;
     row_title := title media;
     row_media_type := media_type media;
     row_genre := genre media;
     row_release_date := release_date media;
     row_director := director media;
     row_description := description media;
     row_rating := rating media;
     row_status := status media;
     row_image_path := image_path media;
     row_date_added := row_date_added r |}.

(** [WHERE id = ?] with the parameter possibly [None]. *)
Definition id_matches (i : option Z) (r : Row) : bool :=
  sql_eq (Some (row_id r)) i.

(** [UPDATE Media SET title=?, ..., image_path=? WHERE id=?] and [commit()];
    the result is [cursor.rowcount].  The NOT NULL constraints are checked on
    the rows the statement changes, so they cannot fail when it changes
    none. *)
Definition update_media (media : Media) : method MediaTable nat :=
  λ t,
    let hit := filter (λ r, Is_true (id_matches (id media) r)) (rows t) in
    match hit, not_null_violation media with
    | _ :: _, Some msg => (Raise (IntegrityError msg), t)
    | _, _ =>
        (Ok (length hit),
         {| rows := (λ r, if id_matches (id media) r
                          then set_columns media r else r) <$> rows t;
            seq := seq t |})
    end.

(** [DELETE FROM Media WHERE id = ?] and [commit()]; the result is
    [cursor.rowcount]. *)
Definition delete_media (media_id : Z) : method MediaTable nat :=
  λ t,
    let hit := filter (λ r, row_id r = media_id) (rows t) in
    (Ok (length hit),
     {| rows := filter (λ r, row_id r ≠ media_id) (rows t); seq := seq t |}).

(** [SELECT COUNT( * ) FROM Media] *)
Definition select_count (t : MediaTable) : nat := length (rows t).

(** [SELECT DISTINCT col FROM Media]: NULL is one of the distinct values
    when some row has it. *)
Definition select_distinct (col : Row → option string) (t : MediaTable)
  : list (option string) :=
  remove_dups (col <$> rows t).

(** [SELECT COUNT( * ) FROM Media WHERE col = ?] *)
Definition select_count_where (col : Row → option string)
    (v : option string) (t : MediaTable) : nat :=
  length (filter (λ r, Is_true (sql_eq (col r) v)) (rows t)).

(** ** Binary floating point

    A REAL of SQLite and a [float] of Python are IEEE 754 binary64 numbers.
    A finite one is written as the rational number it is; the operations
    round the exact result to the nearest binary64 number, ties to the one
    with an even significand, and give an infinity when that is out of
    range.  The sign of a zero is not kept. *)

(** The integer nearest to [x], the even one when two are equally near. *)
Definition rne (x : Q) : Z :=
  let f := Qfloor x in
  match (x - inject_Z f ?= 1 # 2)%Q with
  | Lt => f
  | Gt => f + 1
  | Eq => if Z.even f then f else f + 1
  end.

(** For [x > 0], the exponent [e] with [2 ^ e <= x < 2 ^ (e + 1)]. *)
Definition floor_log2 (x : Q) : Z :=
  let e := Z.log2 (Qnum x) - Z.log2 (Z.pos (Qden x)) in
  if Qle_bool (2 ^ e) x then e else e - 1.

(** The exponent of the unit in the last place at [x]: 53 significant bits
    down to the subnormal numbers, whose unit is [2 ^ -1074]. *)
Definition ulp_exp (x : Q) : Z := Z.max (floor_log2 x - 52) (-1074).

(** The nearest multiple of that unit, for [x > 0]. *)
Definition binary64_round_pos (x : Q) : Q :=
  (inject_Z (rne (x / 2 ^ ulp_exp x)) * 2 ^ ulp_exp x)%Q.

Definition binary64_round (x : Q) : Q :=
  match Qnum x with
  | Z0 => 0%Q
  | Zpos _ => binary64_round_pos x
  | Zneg _ => (- binary64_round_pos (- x))%Q
  end.

(** A binary64 number that is not a NaN. *)
Inductive double : Type :=
| Finite (q : Qc)
| Infinity (negative : bool).

(** The binary64 number an exact result is rounded to. *)
Definition to_double (x : Q) : double :=
  let r := binary64_round x in
  if Qle_bool (2 ^ 1024) (Qabs r)
  then Infinity match Qnum x with Zneg _ => true | _ => false end
  else Finite (Q2Qc r).

(** [a + b] where [b] is finite. *)
Definition double_add (a : double) (b : Qc) : double :=
  match a with
  | Finite a => to_double (a + b)%Qc
  | Infinity negative => Infinity negative
  end.

(** [a / (double)n] for a count [n > 0]. *)
Definition double_div (a : double) (n : nat) : double :=
  match a with
  | Finite a => to_double (a / binary64_round (inject_Z (Z.of_nat n)))%Q
  | Infinity negative => Infinity negative
  end.

(** What [AVG] computes over values that are there: it adds them to a
    binary64 total one by one, in the order of the table scan, and divides
    the total by their number.  This is the summation of SQLite 3.40; newer
    releases carry a correction term beside the total, which stays zero as
    long as no addition rounds. *)
Definition binary64_mean (l : list Qc) : double :=
  double_div (foldl double_add (Finite 0%Qc) l) (length l).

(** [AVG] over the non-NULL values: NULL when there is none. *)
Definition sql_avg (l : list Qc) : option double :=
  match l with
  | [] => None
  | _ :: _ => Some (binary64_mean l)
  end.

(** [SELECT AVG(rating) FROM Media WHERE rating IS NOT NULL] *)
Definition select_avg_rating (t : MediaTable) : option double :=
  sql_avg (omap row_rating (rows t)).

(** ** Python helpers *)

(** [round(x, 1)]: the decimal with one digit after the point that is
    nearest to the exact value of [x], ties to the even digit, converted
    back to binary64. *)
Definition round1 (x : double) : double :=
  match x with
  | Finite a => to_double (rne (10 * a) # 10)
  | Infinity negative => Infinity negative
  end.

(** The truth value of an optional number: [None] and zero are false. *)
Definition truthy (x : option double) : bool :=
  match x with
  | None => false
  | Some (Finite q) => negb (bool_decide (q = 0%Qc))
  | Some (Infinity _) => true
  end.

(** [sum(d.values())] *)
Definition sum_values (d : gmap (option string) nat) : nat :=
  map_fold (λ _ v acc, (v + acc)%nat) 0%nat d.

(** The dict that [get_statistics] returns, one field per key. *)
Record Statistics : Type := mkStatistics {
  total_items : nat;
  type_breakdown : gmap (option string) nat;
  status_breakdown : gmap (option string) nat;
  average_rating : double
}.

(** ** The methods of [DatabaseModel] *)

Definition get_all_records : method Store (list Media) :=
  except_sqlite3_Error "Error retrieving records: "
    (rows ← execute (query select_all);
     mret (_row_to_media <$> rows)).

Definition get_record (media_id : Z) : method Store (option Media) :=
  except_sqlite3_Error "Error retrieving record: "
    (row ← execute (query (select_by_id media_id));
     mret (match row with
           | Some row => Some (_row_to_media row)
           | None => None
           end)).

Definition search_by_title (title : string) : method Store (list Media) :=
  except_sqlite3_Error "Error searching: "
    (rows ← execute (select_title_like ("%" +:+ title +:+ "%"));
     mret (_row_to_media <$> rows)).

Definition filter_by_type (media_type : string) : method Store (list Media) :=
  except_sqlite3_Error "Error filtering: "
    (rows ← execute (query (select_by_type media_type));
     mret (_row_to_media <$> rows)).

Definition filter_by_status (status : string) : method Store (list Media) :=
  except_sqlite3_Error "Error filtering: "
    (rows ← execute (query (select_by_status status));
     mret (_row_to_media <$> rows)).

Definition create_record (now : string) (media : Media) : method Store Z :=
  except_sqlite3_Error "Error creating record: "
    (lastrowid ← execute (insert_media now media);
     mret lastrowid).

Definition update_record (media : Media) : method Store bool :=
  except_sqlite3_Error "Error updating record: "
    (rowcount ← execute (update_media media);
     mret (bool_decide (0 < rowcount)%nat)).

Definition delete_record (media_id : Z) : method Store bool :=
  except_sqlite3_Error "Error deleting record: "
    (rowcount ← execute (delete_media media_id);
     mret (bool_decide (0 < rowcount)%nat)).

(** The two loops of [get_statistics]: one COUNT query per distinct value,
    stored under that value in a fresh dict. *)
Definition breakdown (col : Row → option string) (keys : list (option string))
  : method Store (gmap (option string) nat) :=
  for_each keys
    (λ d v, count ← execute (query (select_count_where col v));
            mret (<[v := count]> d))
    ∅.

Definition get_statistics : method Store Statistics :=
  except_sqlite3_Error "Error getting statistics: "
    (total ← execute (query select_count);
     types ← execute (query (select_distinct row_media_type));
     by_type ← breakdown row_media_type types;
     statuses ← execute (query (select_distinct row_status));
     by_status ← breakdown row_status statuses;
     avg_rating ← execute (query select_avg_rating);
     mret {| total_items := total;
             type_breakdown := by_type;
             status_breakdown := by_status;
             average_rating :=
               if truthy avg_rating
               then round1 (default (Finite 0%Qc) avg_rating)
               else Finite 0%Qc |}).

(** ** The user registry and the files of the working directory *)

(** One row of the table created by [setup_users_database]:
    [id INTEGER PRIMARY KEY AUTOINCREMENT], [username TEXT NOT NULL UNIQUE]
    and [created_at].  The methods below bind a [str] to [username], so the
    column is never NULL. *)
Record UserRow : Type := mkUserRow {
  user_id : Z;
  username : string;
  created_at : option string
}.

Record UsersTable : Type := mkUsersTable {
  user_rows : list UserRow;
  user_seq : Z
}.

(** The content of a database file: the tables it has. *)
Record Database : Type := mkDatabase {
  Users_table : option UsersTable;
  Media_table : Store
}.

(** What [sqlite3.connect] creates for a path with no file. *)
Definition empty_database : Database :=
  {| Users_table := None; Media_table := None |}.

(** What a path of the working directory holds: a database, or something
    SQLite cannot open as one (a directory, a file of another format). *)
Inductive file : Type :=
| NotDatabase
| DbFile (db : Database).

(** The working directory: path to content. *)
Abbreviation World := (gmap string file).

(** [sqlite3.connect(db_name)]: opens the file, creating an empty database
    when there is none. *)
Definition connect (db_name : string) : method World unit :=
  λ w,
    match w !! db_name with
    | None => (Ok (), <[db_name := DbFile empty_database]> w)
    | Some (DbFile _) => (Ok (), w)
    | Some NotDatabase =>
        (Raise (OperationalError "unable to open database file"), w)
    end.

(** A statement run on the open connection to [db_name]. *)
Definition on_connection {A} (db_name : string) (stmt : method Database A)
  : method World A :=
  λ w,
    match w !! db_name with
    | Some (DbFile db) =>
        let '(r, db') := stmt db in (r, <[db_name := DbFile db']> w)
    | _ => (Raise (OperationalError "unable to open database file"), w)
    end.

(** A statement on the Users table of a database. *)
Definition on_Users {A} (stmt : method UsersTable A) : method Database A :=
  λ db,
    match Users_table db with
    | None => (Raise (OperationalError "no such table: Users"), db)
    | Some t =>
        let '(r, t') := stmt t in
        (r, {| Users_table := Some t'; Media_table := Media_table db |})
    end.

(** A method of the record store run on the Media table of a database. *)
Definition on_Media {A} (m : method Store A) : method Database A :=
  λ db,
    let '(r, s') := m (Media_table db) in
    (r, {| Users_table := Users_table db; Media_table := s' |}).

(** ** [setup_database.py] *)

Definition USERS_DB : string := "users.db".

(** [CREATE TABLE IF NOT EXISTS Users (...)] and [commit()] *)
Definition create_Users_if_not_exists : method Database unit :=
  λ db,
    (Ok (),
     {| Users_table :=
          match Users_table db with
          | Some t => Some t
          | None => Some {| user_rows := []; user_seq := 0 |}
          end;
        Media_table := Media_table db |}).

(** [CREATE TABLE IF NOT EXISTS Media (...)] and [commit()] *)
Definition create_Media_if_not_exists : method Database unit :=
  λ db,
    (Ok (),
     {| Users_table := Users_table db;
        Media_table :=
          match Media_table db with
          | Some t => Some t
          | None => Some empty_table
          end |}).

Definition setup_users_database : method World unit :=
  _ ← connect USERS_DB;
  on_connection USERS_DB create_Users_if_not_exists.

Definition setup_media_database (username : string) : method World unit :=
  let db_name := "media_library_" +:+ username +:+ ".db" in
  _ ← connect db_name;
  on_connection db_name create_Media_if_not_exists.

(** ** The statements and methods of [UserManager] *)

(** [SELECT username FROM Users ORDER BY username ASC] *)
Definition select_usernames (t : UsersTable) : list string :=
  merge_sort (λ a b, Is_true (String.leb a b)) (username <$> user_rows t).

(** [INSERT INTO Users (username) VALUES (?)] and [commit()] *)
Definition insert_user (now : string) (name : string) : method UsersTable unit :=
  λ t,
    if bool_decide (name ∈ (username <$> user_rows t))
    then (Raise (IntegrityError "UNIQUE constraint failed: Users.username"), t)
    else
      let rowid :=
        Z.max (user_seq t) (foldr (λ r acc, Z.max (user_id r) acc) 0 (user_rows t))
        + 1 in
      (Ok (),
       {| user_rows :=
            user_rows t
            ++ [{| user_id := rowid; username := name;
                   created_at := Some now |}];
          user_seq := rowid |}).

(** [UserManager.__init__] and [UserManager.connect] *)
Definition UserManager_init : method World unit :=
  except_sqlite3_Error "User database connection error: " (connect "users.db").

(** The methods below are those of a [UserManager] whose [__init__] has
    returned: they run on its connection to ["users.db"]. *)

Definition get_all_users : method World (list string) :=
  except_sqlite3_Error "Error retrieving users: "
    (on_connection "users.db" (on_Users (query select_usernames))).

(** [try: ... except sqlite3.IntegrityError: return False
     except sqlite3.Error as e: raise Exception(...)] *)
Definition create_user (now : string) (username : string) : method World bool :=
  λ w,
    match (_ ← on_connection "users.db" (on_Users (insert_user now username));
           _ ← setup_media_database username;
           mret true) w with
    | (Ok b, w') => (Ok b, w')
    | (Raise e, w') =>
        if is_IntegrityError e then (Ok false, w')
        else if is_sqlite3_Error e
        then (Raise (Exception ("Error creating user: " +:+ exn_str e)), w')
        else (Raise e, w')
    end.

(** [UserManager()] followed by one method call on the new object. *)
Definition UserManager {A} (m : method World A) : method World A :=
  _ ← UserManager_init;
  m.

(** [DatabaseModel(db_name)] followed by one method call on the new
    object: [__init__] connects, the method runs on that connection. *)
Definition DatabaseModel {A} (db_name : string) (m : method Store A)
  : method World A :=
  _ ← except_sqlite3_Error "Database connection error: " (connect db_name);
  on_connection db_name (on_Media m).

(** ** The public interface as transitions *)

(** A call whose result is dropped: only its effect on the state and whether
    it raised remain. *)
Definition void {S A} (m : method S A) : method S unit := _ ← m; mret ().

(** The calls a client can make on a [DatabaseModel]. *)
Inductive store_call : Type :=
| GetAllRecords
| GetRecord (media_id : Z)
| SearchByTitle (title : string)
| FilterByType (media_type : string)
| FilterByStatus (status : string)
| CreateRecord (now : string) (media : Media)
| UpdateRecord (media : Media)
| DeleteRecord (media_id : Z)
| GetStatistics.

Definition store_run (c : store_call) : method Store unit :=
  match c with
  | GetAllRecords => void get_all_records
  | GetRecord media_id => void (get_record media_id)
  | SearchByTitle title => void (search_by_title title)
  | FilterByType media_type => void (filter_by_type media_type)
  | FilterByStatus status => void (filter_by_status status)
  | CreateRecord now media => void (create_record now media)
  | UpdateRecord media => void (update_record media)
  | DeleteRecord media_id => void (delete_record media_id)
  | GetStatistics => void get_statistics
  end.

(** The states a record store goes through: it starts with the empty table
    that [setup_media_database] creates and changes by the calls made on
    it, whether they return or raise. *)
Inductive reachable_store : Store → Prop :=
| reachable_fresh : reachable_store (Some empty_table)
| reachable_call c s :
    reachable_store s → reachable_store (store_run c s).2.

(** The calls a client can make on the working directory: the two functions
    of the setup script, the user registry, and any method of a record store
    opened on any path. *)
Inductive call : Type :=
| SetupUsersDatabase
| SetupMediaDatabase (username : string)
| NewUserManager
| GetAllUsers
| CreateUser (now : string) (username : string)
| OnStore (db_name : string) (c : store_call).

Definition run (c : call) : method World unit :=
  match c with
  | SetupUsersDatabase => setup_users_database
  | SetupMediaDatabase username => setup_media_database username
  | NewUserManager => UserManager (mret ())
  | GetAllUsers => UserManager (void get_all_users)
  | CreateUser now username => UserManager (void (create_user now username))
  | OnStore db_name c => DatabaseModel db_name (store_run c)
  end.

(** ** A sample store *)

(** Two items, titled "Alpha" and "beta", rated 7.0 and 9.0. *)
Definition alpha_beta : MediaTable :=
  {| rows :=
       [ {| row_id := 1; row_title := Some "Alpha";
            row_media_type := Some "Book"; row_genre := Some "Fantasy";
            row_release_date := Some ""; row_director := Some "";
            row_description := Some ""; row_rating := Some (Qc_of_Z 7);
            row_status := Some "To Read"; row_image_path := Some "";
            row_date_added := Some "2024-01-01 10:00:00" |};
         {| row_id := 2; row_title := Some "beta";
            row_media_type := Some "Film"; row_genre := Some "Drama";
            row_release_date := Some ""; row_director := Some "";
            row_description := Some ""; row_rating := Some (Qc_of_Z 9);
            row_status := Some "Completed"; row_image_path := Some "";
            row_date_added := Some "2024-01-02 10:00:00" |} ];
     seq := 2 |}.

(** * Vocabulary of the properties *)

(** Equality of two items on the nine fields the caller supplies, that is on
    every field but [id] and [date_added]. *)
Definition same_data (a b : Media) : Prop :=
  title a = title b ∧ media_type a = media_type b ∧ genre a = genre b
  ∧ release_date a = release_date b ∧ director a = director b
  ∧ description a = description b ∧ rating a = rating b
  ∧ status a = status b ∧ image_path a = image_path b.

(** The claim that [create_record] accepts every item: it returns an
    identifier and the table gains exactly the row of that item. *)
Definition persists_as_given (now : string) (media : Media) (t : MediaTable)
  : Prop :=
  ∃ new_id,
    create_record now media (Some t)
    = (Ok new_id, Some {| rows := rows t ++ [row_of new_id now media];
                          seq := new_id |}).

(** An item whose title is [None]. *)
Definition untitled : Media :=
  {| id := None; title := None; media_type := Some "Book"; genre := Some "";
     release_date := Some ""; director := Some ""; description := Some "";
     rating := None; status := Some "To Read"; image_path := Some "";
     date_added := Some "" |}.

(** An item titled "Old". *)
Definition old_item : Media :=
  {| id := None; title := Some "Old"; media_type := Some "Book";
     genre := Some ""; release_date := Some ""; director := Some "";
     description := Some ""; rating := None; status := Some "Completed";
     image_path := Some ""; date_added := Some "" |}.

(** The dict built by one loop of [get_statistics], as a fold. *)
Definition breakdown_of (col : Row → option string) (t : MediaTable)
    (keys : list (option string)) (d : gmap (option string) nat)
  : gmap (option string) nat :=
  foldl (λ d v, <[v := select_count_where col v t]> d) d keys.

(** What [get_statistics] returns on a store that has its table. *)
Definition statistics_of (t : MediaTable) : Statistics :=
  {| total_items := select_count t;
     type_breakdown :=
       breakdown_of row_media_type t (select_distinct row_media_type t) ∅;
     status_breakdown :=
       breakdown_of row_status t (select_distinct row_status t) ∅;
     average_rating :=
       if truthy (select_avg_rating t)
       then round1 (default (Finite 0%Qc) (select_avg_rating t))
       else Finite 0%Qc |}.






(** A row that has only a title, a media type and a rating. *)
Definition rated (rowid : Z) (q : Qc) : Row :=
  {| row_id := rowid; row_title := Some "Item"; row_media_type := Some "Book";
     row_genre := None; row_release_date := None; row_director := None;
     row_description := None; row_rating := Some q; row_status := None;
     row_image_path := None; row_date_added := Some "2024-01-01 10:00:00" |}.

(** Ten items rated 9.5, 8.0 and eight times 9.0: their mean is 8.95. *)
Definition ten_ratings : MediaTable :=
  {| rows :=
       rated 1 (Q2Qc (19 # 2)) :: rated 2 (Qc_of_Z 8)
       :: ((λ i, rated i (Qc_of_Z 9)) <$> [3; 4; 5; 6; 7; 8; 9; 10]);
     seq := 10 |}.

(** The schema invariant of a store: the table is there and no row has NULL
    in a NOT NULL column. *)
Definition well_formed (s : Store) : Prop :=
  ∃ t, s = Some t
       ∧ Forall (λ r, is_Some (row_title r) ∧ is_Some (row_media_type r))
                (rows t).

(** A store after two calls of [create_record]: the first item has the
    dataclass defaults, the second has no title and is rejected. *)
Definition two_creates : Store :=
  (store_run (CreateRecord "2024-03-01 09:00:00" untitled)
     (store_run (CreateRecord "2024-02-01 09:00:00" Media_default)
        (Some empty_table)).2).2.

(** A store after four calls: three items are created and the first one is
    deleted in between. *)
Definition four_calls : Store :=
  (store_run (CreateRecord "2024-02-04 09:00:00" old_item)
     (store_run (DeleteRecord 1)
        (store_run (CreateRecord "2024-02-02 09:00:00" old_item)
           (store_run (CreateRecord "2024-02-01 09:00:00" Media_default)
              (Some empty_table)).2).2).2).2.

(** The file that [setup_media_database] and the application open for a
    user. *)
Definition media_db_name (username : string) : string :=
  "media_library_" +:+ username +:+ ".db".

(** The usernames in the registry, in insertion order; none while the
    registry has no Users table. *)
Definition registered (w : World) : list string :=
  match w !! "users.db" with
  | Some (DbFile db) =>
      match Users_table db with
      | Some t => username <$> user_rows t
      | None => []
      end
  | _ => []
  end.

(** The Users table after a successful INSERT of [name]. *)
Definition with_user (now name : string) (t : UsersTable) : UsersTable :=
  (insert_user now name t).2.

(** How many times a username occurs in a list. *)
Definition occurrences (u : string) (l : list string) : nat :=
  length (filter (λ x, x = u) l).

(** A working directory where the setup script has run, and the same one
    with an obstacle where the store of user "bad" should go. *)
Definition after_setup : World := (setup_users_database ∅).2.

Definition with_obstacle : World :=
  <["media_library_bad.db" := NotDatabase]> after_setup.

(** The latter once the INSERT of [create_user] for "bad" is committed. *)
Definition bad_registered : World :=
  (on_connection "users.db"
     (on_Users (insert_user "2024-03-01 09:00:00" "bad")) with_obstacle).2.

(** The username has no record store yet: there is no file under its name,
    or one that holds no Media table. *)
Definition no_store (u : string) (w : World) : Prop :=
  ∀ db, w !! media_db_name u = Some (DbFile db) → Media_table db = None.

(** The words of the specification, and what the list view of the
    application does in memory ([search_term in m.title.lower()]): the title
    contains the query as a substring, up to case. *)
Fixpoint is_prefix (p s : string) : bool :=
  match p, s with
  | EmptyString, _ => true
  | String _ _, EmptyString => false
  | String a p', String b s' => Ascii.eqb a b && is_prefix p' s'
  end.

Fixpoint contains (q s : string) : bool :=
  is_prefix q s
  || match s with
     | EmptyString => false
     | String _ s' => contains q s'
     end.

Definition title_contains (q : string) (title : option string) : bool :=
  match title with
  | Some t => contains (string_lower q) (string_lower t)
  | None => false
  end.

(** The result the specification asks of [search_by_title]. *)
Definition search_by_title_spec (q : string) (t : MediaTable) : list Media :=
  _row_to_media
  <$> order_by_asc row_title
        (filter (λ r, Is_true (title_contains q (row_title r))) (rows t)).

(** A query without the two wildcard characters of LIKE. *)
Fixpoint no_wildcard (q : string) : bool :=
  match q with
  | EmptyString => true
  | String c q' =>
      negb (Ascii.eqb c "%"%char) && negb (Ascii.eqb c "_"%char)
      && no_wildcard q'
  end.

(** A query without the NUL character. *)
Fixpoint no_nul (q : string) : bool :=
  match q with
  | EmptyString => true
  | String c q' => negb (Ascii.eqb c "000"%char) && no_nul q'
  end.

(** An integer that fits the 64 bits of an SQLite INTEGER.  Python refuses to
    bind any other to a statement ([OverflowError]), so it is the range of
    the identifiers a caller can look up. *)
Definition int64 (i : Z) : Prop := - 2 ^ 63 ≤ i < 2 ^ 63.

(** ** Sequences of calls on a store *)

(** The store after a list of calls, made in order. *)
Definition store_runs (cs : list store_call) (s : Store) : Store :=
  foldl (λ s c, (store_run c s).2) s cs.

(** The identifiers of a store are distinct, positive and not above the
    AUTOINCREMENT counter. *)
Definition ids_well_formed (s : Store) : Prop :=
  ∃ t, s = Some t
       ∧ NoDup (row_id <$> rows t)
       ∧ Forall (λ r, 0 < row_id r ≤ seq t) (rows t)
       ∧ 0 ≤ seq t.

(** ** Orders of the listings *)

(** Two items in ascending order of title, NULL first. *)
Definition title_ascending (a b : Media) : Prop :=
  Is_true (text_le (title a) (title b)).

(** Two items in descending order of [date_added], NULL last. *)
Definition date_added_descending (a b : Media) : Prop :=
  Is_true (text_le (date_added b) (date_added a)).

(** ** Sequences of calls on the working directory *)

(** The working directory after a list of calls, made in order. *)
Definition runs (cs : list call) (w : World) : World :=
  foldl (λ w c, (run c w).2) w cs.

(** A working directory where the store of "ann" was provisioned by a direct
    call of [setup_media_database] and holds one item, while "ann" is not
    registered. *)
Definition stale_store : World :=
  runs [SetupUsersDatabase;
        SetupMediaDatabase "ann";
        OnStore "media_library_ann.db"
          (CreateRecord "2024-02-01 09:00:00" old_item)] ∅.

(** A working directory with two registered users, "bob" then "ann", whose
    stores hold one item each. *)
Definition two_libraries : World :=
  runs [SetupUsersDatabase;
        CreateUser "2024-01-05 09:00:00" "bob";
        CreateUser "2024-01-06 09:00:00" "ann";
        OnStore "media_library_ann.db"
          (CreateRecord "2024-02-01 09:00:00" old_item);
        OnStore "media_library_bob.db"
          (CreateRecord "2024-02-02 09:00:00" Media_default)] ∅.

(** A username that is a file name on every file system: up to 64 ASCII
    letters, digits, [_] and [-]. *)
Definition portable_char (c : ascii) : bool :=
  let n := Ascii.N_of_ascii c in
  (((48 <=? n) && (n <=? 57)) || ((65 <=? n) && (n <=? 90))
   || ((97 <=? n) && (n <=? 122)) || (n =? 95) || (n =? 45))%N.

Fixpoint portable_chars (u : string) : bool :=
  match u with
  | EmptyString => true
  | String c u' => portable_char c && portable_chars u'
  end.

Definition portable_name (u : string) : Prop :=
  portable_chars u = true ∧ (String.length u ≤ 64)%nat.

(** * The list view and the entry form of [main.py] *)

(** ** Python string methods

    In this part a character is a code point below U+0100, so that the
    whitespace and the letter cases of [str.strip], [str.split] and
    [str.lower] can be written out. *)

(** [c.isspace()]: TAB to CR, FS to SPACE, NEL and NBSP. *)
Definition py_isspace (c : ascii) : bool :=
  let n := Ascii.N_of_ascii c in
  (((9 <=? n) && (n <=? 13)) || ((28 <=? n) && (n <=? 32))
   || (n =? 133) || (n =? 160))%N.

(** [c.lower()]: the ASCII capitals and the capitals of Latin-1, which are
    U+00C0 to U+00DE without the multiplication sign U+00D7. *)
Definition py_lower_char (c : ascii) : ascii :=
  let n := Ascii.N_of_ascii c in
  if (((65 <=? n) && (n <=? 90))
      || ((192 <=? n) && (n <=? 222) && negb (n =? 215)))%N
  then Ascii.ascii_of_N (n + 32)
  else c.

(** [s.lower()] *)
Fixpoint py_lower (s : string) : string :=
  match s with
  | EmptyString => EmptyString
  | String c s' => String (py_lower_char c) (py_lower s')
  end.

(** [s.lstrip()] *)
Fixpoint py_lstrip (s : string) : string :=
  match s with
  | EmptyString => EmptyString
  | String c s' => if py_isspace c then py_lstrip s' else s
  end.

(** [s.rstrip()] *)
Fixpoint py_rstrip (s : string) : string :=
  match s with
  | EmptyString => EmptyString
  | String c s' =>
      match py_rstrip s' with
      | EmptyString => if py_isspace c then EmptyString else String c EmptyString
      | r => String c r
      end
  end.

(** [s.strip()] *)
Definition py_strip (s : string) : string := py_lstrip (py_rstrip s).

(** [s.rstrip(',')] *)
Fixpoint py_rstrip_comma (s : string) : string :=
  match s with
  | EmptyString => EmptyString
  | String c s' =>
      match py_rstrip_comma s' with
      | EmptyString =>
          if Ascii.eqb c ","%char then EmptyString else String c EmptyString
      | r => String c r
      end
  end.

(** [s.split()]: the maximal runs of characters that are not whitespace.
    [cur] is the run being read. *)
Fixpoint py_split_from (cur : string) (s : string) : list string :=
  match s with
  | EmptyString =>
      match cur with
      | EmptyString => []
      | _ => [cur]
      end
  | String c s' =>
      if py_isspace c
      then match cur with
           | EmptyString => py_split_from EmptyString s'
           | _ => cur :: py_split_from EmptyString s'
           end
      else py_split_from (cur +:+ String c EmptyString) s'
  end.

Definition py_split (s : string) : list string := py_split_from EmptyString s.

(** The truth value of an optional [str]: [None] and [""] are false. *)
Definition str_truthy (s : option string) : bool :=
  match s with
  | None | Some EmptyString => false
  | Some (String _ _) => true
  end.

(** ** [MainApplication._apply_filters]

    The list the view shows for the three criteria of the toolbar, or [None]
    when the comprehension over the titles raises [AttributeError] because a
    title is [None]. *)

(** [[m for m in l if search_term in m.title.lower()]] *)
Fixpoint filter_by_search (search_term : string) (l : list Media)
  : option (list Media) :=
  match l with
  | [] => Some []
  | m :: l' =>
      match title m with
      | None => None
      | Some ti =>
          match filter_by_search search_term l' with
          | None => None
          | Some rest =>
              Some (if contains search_term (py_lower ti)
                    then m :: rest else rest)
          end
      end
  end.

Definition _apply_filters (search_var filter_type filter_status : string)
    (current_media_list : list Media) : option (list Media) :=
  let search_term := py_lower (py_strip search_var) in
  filtered_list ←
    (if str_truthy (Some search_term)
     then filter_by_search search_term current_media_list
     else Some current_media_list);
  let filtered_list :=
    if bool_decide (filter_type ≠ "All")
    then filter (λ m, media_type m = Some filter_type) filtered_list
    else filtered_list in
  let filtered_list :=
    if bool_decide (filter_status ≠ "All")
    then filter (λ m, status m = Some filter_status) filtered_list
    else filtered_list in
  Some filtered_list.

(** ** The release date in the form and in the list *)

(** [AddEditWindow._save]: the release date built from the three
    comboboxes. *)
Definition _save_release_date (month day year : string) : string :=
  if str_truthy (Some month) && str_truthy (Some day) && str_truthy (Some year)
  then month +:+ " " +:+ day +:+ ", " +:+ year
  else "".

(** [AddEditWindow._populate_fields]: what the three comboboxes are set to,
    or [None] when they are left alone. *)
Definition _populate_fields_date (release_date : option string)
  : option (string * string * string) :=
  if str_truthy release_date
  then match py_split (default "" release_date) with
       | p0 :: p1 :: p2 :: _ => Some (p0, py_rstrip_comma p1, p2)
       | _ => None
       end
  else None.

(** [MainApplication._refresh_treeview]: the year column of a row. *)
Definition _refresh_treeview_year (release_date : option string) : string :=
  if str_truthy release_date
  then let parts := py_split (default "" release_date) in
       if bool_decide (3 ≤ length parts)%nat
       then default "-" (last parts)
       else "-"
  else "-".

(** * The lab script: doctors grouped by speciality *)

(** The two exceptions the loop can raise: [.strip()] on a speciality that
    is NULL, and [[-1]] on the words of a blank name. *)
Inductive py_error : Type :=
| AttributeError
| IndexError.

(** The [for spec, name in rows] loop of exercise 1, from the state
    [current_speciality]: the lines printed, and the exception that stopped
    the loop if one did.  [Speciality] may be NULL, [Doctor_Name] is NOT
    NULL. *)
Fixpoint Ex1_loop (current_speciality : option string)
    (rows : list (option string * string)) : list string * option py_error :=
  match rows with
  | [] => ([], None)
  | (spec, name) :: rows' =>
      match spec with
      | None => ([], Some AttributeError)
      | Some spec =>
          let spec := py_strip spec in
          let header :=
            if bool_decide (Some spec ≠ current_speciality) then [spec] else [] in
          match last (py_split (py_strip name)) with
          | None => (header, Some IndexError)
          | Some lastname =>
              let '(out, err) := Ex1_loop (Some spec) rows' in
              (header ++ ("  Dr. " +:+ lastname) :: out, err)
          end
      end
  end.

(** The loop as the script runs it, with [current_speciality = None]. *)
Definition Ex1 (rows : list (option string * string))
  : list string * option py_error :=
  Ex1_loop None rows.

(** The rows that exercise 0 inserts, as exercise 1 reads them back:
    [ORDER BY Speciality ASC, Doctor_Name ASC]. *)
Definition Ex0_rows : list (option string * string) :=
  [ (Some "Dermatologist", "Izukaw");
    (Some "Obstetrician/Gynecologist", "Jhas");
    (Some "Oncologist", "McBroom");
    (Some "Pediatric", "Chan");
    (Some "Pediatric", "Duemler");
    (Some "Psychiatrist", "Platonov");
    (Some "Radiologist", "Marmor");
    (Some "Surgeon", "El-Ashry") ].

(** ** Vocabulary of the properties of these parts *)

(** No whitespace in a string. *)
Fixpoint no_space (s : string) : bool :=
  match s with
  | EmptyString => true
  | String c s' => negb (py_isspace c) && no_space s'
  end.

(** The last character of a string is not a comma. *)
Definition no_trailing_comma (s : string) : Prop := py_rstrip_comma s = s.

(** The specialities of the rows, stripped as the loop strips them. *)
Definition stripped_specialities (rows : list (option string * string))
  : list string :=
  omap (λ row, py_strip <$> row.1) rows.

(** A row the loop can print: it has a speciality, and its name has a
    character that is not whitespace. *)
Definition printable (row : option string * string) : Prop :=
  is_Some row.1 ∧ py_split (py_strip row.2) ≠ [].

(** The number of speciality headers the loop prints for a list of stripped
    specialities: one wherever the speciality differs from the one before
    it. *)
Fixpoint headers (current : option string) (specs : list string) : nat :=
  match specs with
  | [] => 0
  | s :: specs' =>
      ((if bool_decide (Some s ≠ current) then 1 else 0)
       + headers (Some s) specs')%nat
  end.

(** The exception a row that cannot be printed raises. *)
Definition error_of (row : option string * string) : py_error :=
  match row.1 with
  | None => AttributeError
  | Some _ => IndexError
  end.

(** The title of an item contains the search term, up to case. *)
Definition search_matches (search_term : string) (m : Media) : bool :=
  match title m with
  | Some ti => contains search_term (py_lower ti)
  | None => false
  end.

(** An item passes the three criteria of the toolbar. *)
Definition passes_filters (search_var filter_type filter_status : string)
    (m : Media) : Prop :=
  let search_term := py_lower (py_strip search_var) in
  (search_term = "" ∨ search_matches search_term m = true)
  ∧ (filter_type = "All" ∨ media_type m = Some filter_type)
  ∧ (filter_status = "All" ∨ status m = Some filter_status).

(** * Properties *)

(** ** Running a method on a store that has its table *)

(** Opens the exception handler and the sequencing of a method body. *)
Ltac open_method :=
  unfold except_sqlite3_Error, mbind, method_bind, mret, method_ret, execute,
    query.

Lemma get_all_records_Some t :
  get_all_records (Some t) = (Ok (_row_to_media <$> select_all t), Some t).
Proof. reflexivity. Qed.

Lemma get_record_Some media_id t :
  get_record media_id (Some t)
  = (Ok (_row_to_media <$> select_by_id media_id t), Some t).
Proof.
  unfold get_record. open_method.
  by destruct (select_by_id media_id t).
Qed.

Lemma utf8_length_app (s1 s2 : string) :
  utf8_length (s1 +:+ s2) = utf8_length s1 + utf8_length s2.
Proof.
  induction s1 as [|c s1 IH]; [done|].
  change (String c s1 +:+ s2) with (String c (s1 +:+ s2)).
  cbn [utf8_length]. rewrite IH. lia.
Qed.

(** The search with a pattern that LIKE accepts. *)
Lemma search_by_title_Some q t :
  utf8_length q + 2 ≤ SQLITE_MAX_LIKE_PATTERN_LENGTH →
  search_by_title q (Some t)
  = (Ok (_row_to_media <$> rows_title_like ("%" +:+ q +:+ "%") t), Some t).
Proof.
  intros Hlen. unfold search_by_title, select_title_like. open_method.
  assert (SQLITE_MAX_LIKE_PATTERN_LENGTH <? utf8_length ("%" +:+ q +:+ "%")
          = false) as ->; [|by rewrite andb_false_r].
  apply Z.ltb_ge. rewrite !utf8_length_app.
  change (utf8_length "%") with 1. lia.
Qed.

Lemma max_rowid_ge l r : r ∈ l → row_id r ≤ max_rowid l.
Proof.
  induction 1 as [r l|r r' l _ IH]; simpl; lia.
Qed.

Lemma filter_nil_iff {A} (P : A → Prop) `{∀ x, Decision (P x)} (l : list A) :
  (∀ x, x ∈ l → ¬ P x) → filter P l = [].
Proof.
  induction l as [|x l IH]; intros Hl; [done|].
  rewrite filter_cons_False by (apply Hl; left).
  apply IH. intros y Hy. apply Hl. by right.
Qed.

Lemma filter_ext_in {A} (P Q : A → Prop)
    `{∀ x, Decision (P x)} `{∀ x, Decision (Q x)} (l : list A) :
  (∀ x, x ∈ l → P x ↔ Q x) → filter P l = filter Q l.
Proof.
  induction l as [|x l IH]; intros Hl; [done|].
  rewrite !filter_cons, IH by (intros y Hy; apply Hl; by right).
  apply decide_ext, Hl. left.
Qed.

Lemma table_eta t : {| rows := rows t; seq := seq t |} = t.
Proof. by destruct t. Qed.

(** ** Lookups and updates that find no row *)

(** C7. A lookup by an identifier of the 64-bit range that no stored row has
    returns [None]: the method returns normally, with the explicit not-found
    result, and does not raise. *)
Theorem get_record_missing_is_None (t : MediaTable) (media_id : Z) :
  int64 media_id →
  (∀ r, r ∈ rows t → row_id r ≠ media_id) →
  get_record media_id (Some t) = (Ok None, Some t).
Proof.
  intros _ Hmiss. rewrite get_record_Some. unfold select_by_id.
  rewrite filter_nil_iff; [done|]. intros r Hr. by apply Hmiss.
Qed.

Lemma get_record_missing_is_None_witness :
  get_record 7 (Some alpha_beta) = (Ok None, Some alpha_beta).
Proof.
  apply get_record_missing_is_None.
  - unfold int64. lia.
  - apply Forall_forall. repeat constructor; done.
Defined.

(** C6. Updating with an identifier that matches no stored row ([None], or
    an integer of the 64-bit range that no row has) returns [False] and
    leaves the store as it was, so the number of items listed is the same
    before and after; nothing is raised, whatever the other fields of the
    item are. *)
Theorem update_record_unknown_id_no_effect (t : MediaTable) (media : Media) :
  (∀ i, id media = Some i → int64 i) →
  (∀ r, r ∈ rows t → Some (row_id r) ≠ id media) →
  update_record media (Some t) = (Ok false, Some t)
  ∧ ∃ before after,
      get_all_records (Some t) = (Ok before, Some t)
      ∧ (get_all_records (update_record media (Some t)).2).1 = Ok after
      ∧ length after = length before.
Proof.
  intros _ Hmiss.
  assert (Hno : ∀ r, r ∈ rows t → id_matches (id media) r = false).
  { intros r Hr. unfold id_matches, sql_eq.
    destruct (id media) as [i|] eqn:Hi; [|done].
    apply bool_decide_eq_false. intros Heq.
    apply (Hmiss r Hr). by rewrite Heq. }
  assert (Hrun : update_record media (Some t) = (Ok false, Some t)).
  { unfold update_record, update_media. open_method.
    rewrite filter_nil_iff.
    2:{ intros r Hr. rewrite (Hno r Hr). simpl. tauto. }
    assert (Hsame : (λ r, if id_matches (id media) r
                          then set_columns media r else r) <$> rows t
                    = rows t).
    { rewrite <- (list_fmap_id (rows t)) at 2.
      apply Forall_fmap_ext_1, Forall_forall. intros r Hr.
      by rewrite (Hno r Hr). }
    simpl. by rewrite Hsame, table_eta. }
  split; [done|].
  exists (_row_to_media <$> select_all t), (_row_to_media <$> select_all t).
  rewrite Hrun. by rewrite get_all_records_Some.
Qed.

Lemma update_record_unknown_id_no_effect_witness :
  update_record
    {| id := Some 5; title := None; media_type := Some "Book"; genre := None;
       release_date := None; director := None; description := None;
       rating := None; status := None; image_path := None;
       date_added := None |}
    (Some alpha_beta)
  = (Ok false, Some alpha_beta).
Proof.
  apply update_record_unknown_id_no_effect.
  - intros i [= <-]. unfold int64. lia.
  - apply Forall_forall. repeat constructor; done.
Defined.

(** ** Creating a record *)

Lemma create_record_Some_ok now media t :
  not_null_violation media = None →
  let rowid := Z.max (seq t) (max_rowid (rows t)) + 1 in
  create_record now media (Some t)
  = (Ok rowid, Some {| rows := rows t ++ [row_of rowid now media];
                       seq := rowid |}).
Proof.
  intros Hnn. unfold create_record, insert_media. open_method.
  by rewrite Hnn.
Qed.

Lemma create_record_Some_rejected now media t msg :
  not_null_violation media = Some msg →
  create_record now media (Some t)
  = (Raise (Exception ("Error creating record: " +:+ msg)), Some t).
Proof.
  intros Hnn. unfold create_record, insert_media. open_method.
  by rewrite Hnn.
Qed.

Lemma select_by_id_fresh l r i s :
  row_id r = i →
  (∀ r', r' ∈ l → row_id r' ≠ i) →
  select_by_id i {| rows := l ++ [r]; seq := s |} = Some r.
Proof.
  intros Hi Hfresh. unfold select_by_id. simpl.
  rewrite filter_app, filter_nil_iff by done.
  simpl. by rewrite filter_cons_True.
Qed.

(** C1. For an item whose title and media type are present, [create_record]
    returns a new identifier, and [get_record] on that identifier returns an
    item equal to the input on every field except [id] and [date_added]:
    [id] is the new identifier and [date_added] the time of creation. *)
Theorem create_then_get_round_trip
    (now : string) (media : Media) (t : MediaTable) :
  is_Some (title media) → is_Some (media_type media) →
  ∃ new_id t' got,
    create_record now media (Some t) = (Ok new_id, Some t')
    ∧ get_record new_id (Some t') = (Ok (Some got), Some t')
    ∧ same_data got media
    ∧ id got = Some new_id
    ∧ date_added got = Some now.
Proof.
  intros [ti Hti] [ty Hty].
  assert (Hnn : not_null_violation media = None).
  { unfold not_null_violation. by rewrite Hti, Hty. }
  set (rowid := Z.max (seq t) (max_rowid (rows t)) + 1).
  exists rowid, {| rows := rows t ++ [row_of rowid now media]; seq := rowid |},
    (_row_to_media (row_of rowid now media)).
  split; [by apply create_record_Some_ok|].
  split.
  - rewrite get_record_Some.
    rewrite (select_by_id_fresh (rows t) (row_of rowid now media));
      [done|done|].
    intros r' Hr'. pose proof (max_rowid_ge _ _ Hr'). lia.
  - repeat split.
Qed.

Lemma create_then_get_round_trip_witness :
  ∃ new_id t' got,
    create_record "2024-03-01 09:00:00"
      {| id := None; title := Some "Gamma"; media_type := Some "Game";
         genre := Some ""; release_date := Some ""; director := Some "";
         description := Some ""; rating := Some (Qc_of_Z 8);
         status := Some "To Read"; image_path := Some "";
         date_added := Some "" |}
      (Some alpha_beta)
    = (Ok new_id, Some t')
    ∧ get_record new_id (Some t') = (Ok (Some got), Some t')
    ∧ same_data got
        {| id := None; title := Some "Gamma"; media_type := Some "Game";
           genre := Some ""; release_date := Some ""; director := Some "";
           description := Some ""; rating := Some (Qc_of_Z 8);
           status := Some "To Read"; image_path := Some "";
           date_added := Some "" |}
    ∧ id got = Some new_id
    ∧ date_added got = Some "2024-03-01 09:00:00".
Proof.
  apply create_then_get_round_trip; simpl; eauto.
Defined.

(** C5, as stated, fails: an item whose title is [None] is not persisted.
    The NOT NULL constraint of the schema rejects the INSERT and
    [create_record] raises. *)
Lemma create_record_rejects_null_title :
  create_record "2024-03-01 09:00:00" untitled (Some empty_table)
  = (Raise (Exception
       "Error creating record: NOT NULL constraint failed: Media.title"),
     Some empty_table)
  ∧ ¬ persists_as_given "2024-03-01 09:00:00" untitled empty_table.
Proof.
  split; [reflexivity|].
  intros [new_id H]. discriminate H.
Qed.

(** C5, amended. [create_record] checks nothing itself: whenever neither the
    title nor the media type is [None] it persists the item exactly as given
    (empty strings, any status, any rating included); when one of them is
    [None] the schema's NOT NULL constraint rejects the row, the method
    raises [Exception] and the store is unchanged. *)
Theorem create_record_persists_unless_null
    (now : string) (media : Media) (t : MediaTable) :
  match title media, media_type media with
  | Some _, Some _ => persists_as_given now media t
  | _, _ =>
      ∃ msg, create_record now media (Some t) = (Raise (Exception msg), Some t)
  end.
Proof.
  destruct (title media) as [ti|] eqn:Hti;
    [destruct (media_type media) as [ty|] eqn:Hty|].
  - eexists. apply create_record_Some_ok.
    unfold not_null_violation. by rewrite Hti, Hty.
  - eexists. apply create_record_Some_rejected.
    unfold not_null_violation. by rewrite Hti, Hty.
  - eexists. apply create_record_Some_rejected.
    unfold not_null_violation. by rewrite Hti.
Qed.

(** ** Statistics *)

Lemma for_each_breakdown_Some col t keys d :
  for_each keys
    (λ d v, count ← execute (query (select_count_where col v));
            mret (<[v := count]> d))
    d (Some t)
  = (Ok (breakdown_of col t keys d), Some t).
Proof.
  revert d. induction keys as [|k keys IH]; intros d; [done|].
  simpl. unfold mbind at 1, method_bind at 1.
  unfold mbind at 1, method_bind at 1. simpl.
  unfold mret at 1, method_ret at 1. apply IH.
Qed.

Lemma get_statistics_Some t :
  get_statistics (Some t) = (Ok (statistics_of t), Some t).
Proof.
  unfold get_statistics, except_sqlite3_Error, breakdown.
  unfold mbind at 1, method_bind at 1. simpl.
  unfold mbind at 1, method_bind at 1. simpl.
  unfold mbind at 1, method_bind at 1.
  rewrite for_each_breakdown_Some.
  unfold mbind at 1, method_bind at 1. simpl.
  unfold mbind at 1, method_bind at 1.
  rewrite for_each_breakdown_Some.
  reflexivity.
Qed.

(** *** Binary floating point *)

Lemma rne_proper (x y : Q) : (x == y)%Q → rne x = rne y.
Proof.
  intros Hxy. unfold rne. rewrite (Qfloor_comp _ _ Hxy).
  assert (Hm : (x - inject_Z (Qfloor y) == y - inject_Z (Qfloor y))%Q) by lra.
  by rewrite (Qcompare_comp _ _ Hm _ _ (Qeq_refl _)).
Qed.

Lemma Qfloor_bounds (x : Q) :
  (inject_Z (Qfloor x) <= x < inject_Z (Qfloor x) + 1)%Q.
Proof.
  split; [apply Qfloor_le|].
  pose proof (Qlt_floor x) as H. rewrite inject_Z_plus in H. exact H.
Qed.

Lemma rne_cases (x : Q) :
  let f := Qfloor x in
  ((x - inject_Z f < 1 # 2)%Q ∧ rne x = f)
  ∨ ((1 # 2 < x - inject_Z f)%Q ∧ rne x = f + 1)
  ∨ ((x - inject_Z f == 1 # 2)%Q ∧ Z.even (rne x) = true
     ∧ (rne x = f ∨ rne x = f + 1)).
Proof.
  intros f. unfold rne. fold f.
  destruct (Qcompare_spec (x - inject_Z f) (1 # 2)) as [Heq|Hlt|Hgt].
  - right. right. split; [done|].
    destruct (Z.even f) eqn:He; [by auto|].
    split; [|by auto]. rewrite Z.even_add, He. reflexivity.
  - left. done.
  - right. left. done.
Qed.



Lemma rne_Z (z : Z) : rne (inject_Z z) = z.
Proof.
  unfold rne. rewrite Qfloor_Z.
  destruct (Qcompare_spec (inject_Z z - inject_Z z) (1 # 2)) as [H|H|H];
    [lra|done|lra].
Qed.

Lemma rne_floor_or_succ (x : Q) :
  (rne x = Qfloor x ∧ (x - inject_Z (Qfloor x) <= 1 # 2)%Q)
  ∨ (rne x = Qfloor x + 1 ∧ (1 # 2 <= x - inject_Z (Qfloor x))%Q).
Proof.
  destruct (rne_cases x) as [[H Hr]|[[H Hr]|(H & _ & [Hr|Hr])]];
    [left|right|left|right]; (split; [done|lra]).
Qed.

Lemma rne_mono (x y : Q) : (x <= y)%Q → rne x ≤ rne y.
Proof.
  intros Hxy.
  pose proof (Qfloor_resp_le x y Hxy) as Hf.
  pose proof (Qfloor_bounds x) as [Hxlo Hxhi].
  pose proof (Qfloor_bounds y) as [Hylo Hyhi].
  destruct (rne_floor_or_succ x) as [[Hx Hrx]|[Hx Hrx]];
    destruct (rne_floor_or_succ y) as [[Hy Hry]|[Hy Hry]]; try lia.
  destruct (Z.eq_dec (Qfloor x) (Qfloor y)) as [Heq|Hne]; [|lia].
  rewrite <- Heq in Hry.
  assert (Hsame : (x == y)%Q) by lra.
  rewrite (rne_proper _ _ Hsame). lia.
Qed.

Lemma pow2_pos (e : Z) : (0 < 2 ^ e)%Q.
Proof. by apply Qpower_0_lt. Qed.

Lemma pow2_add (a b : Z) : (2 ^ (a + b) == 2 ^ a * 2 ^ b)%Q.
Proof. by apply Qpower_plus. Qed.

Lemma pow2_le (a b : Z) : a ≤ b → (2 ^ a <= 2 ^ b)%Q.
Proof. intros H. by apply Qpower_le_compat_l. Qed.

Lemma pow2_lt_inv (a b : Z) : (2 ^ a < 2 ^ b)%Q → a < b.
Proof. intros H. by apply (Qpower_lt_compat_l_inv 2). Qed.

Lemma pow2_Z (k : Z) : 0 ≤ k → (inject_Z (2 ^ k) == 2 ^ k)%Q.
Proof. intros H. by rewrite Zpower_Qpower. Qed.

Lemma inject_Z_log2 (n : Z) :
  0 < n → (2 ^ Z.log2 n <= inject_Z n < 2 ^ (Z.log2 n + 1))%Q.
Proof.
  intros Hn. pose proof (Z.log2_spec n Hn) as [Hlo Hhi].
  pose proof (Z.log2_nonneg n) as H0.
  rewrite <- !pow2_Z by lia. rewrite <- Zle_Qle, <- Zlt_Qlt.
  replace (Z.log2 n + 1) with (Z.succ (Z.log2 n)) by lia. done.
Qed.

(** The exponent of a positive rational. *)
Lemma floor_log2_spec (x : Q) :
  (0 < x)%Q → (2 ^ floor_log2 x <= x < 2 ^ (floor_log2 x + 1))%Q.
Proof.
  intros Hx.
  assert (Hn : 0 < Qnum x).
  { unfold Qlt in Hx. simpl in Hx. lia. }
  pose proof (inject_Z_log2 (Qnum x) Hn) as [Hnlo Hnhi].
  pose proof (inject_Z_log2 (Z.pos (Qden x)) ltac:(lia)) as [Hdlo Hdhi].
  set (ln := Z.log2 (Qnum x)) in *. set (ld := Z.log2 (Z.pos (Qden x))) in *.
  set (N := inject_Z (Qnum x)) in *. set (D := inject_Z (Z.pos (Qden x))) in *.
  assert (HD : (0 < D)%Q) by (unfold D; rewrite <- (Zlt_Qlt 0); lia).
  assert (HxD : (x * D == N)%Q).
  { unfold N, D. destruct x as [n d]. unfold Qeq. simpl.
    rewrite Pos.mul_1_r. lia. }
  assert (Hup : (x < 2 ^ (ln - ld + 1))%Q).
  { apply (Qmult_lt_r _ _ D HD). rewrite HxD.
    eapply Qlt_le_trans; [exact Hnhi|].
    replace (ln + 1) with ((ln - ld + 1) + ld) by lia. rewrite pow2_add.
    apply Qmult_le_l; [apply pow2_pos|done]. }
  assert (Hdown : (2 ^ (ln - ld - 1) < x)%Q).
  { apply (Qmult_lt_r _ _ D HD). rewrite HxD.
    eapply Qlt_le_trans; [|exact Hnlo].
    replace ln with ((ln - ld - 1) + (ld + 1)) at 2 by lia. rewrite pow2_add.
    apply Qmult_lt_l; [apply pow2_pos|done]. }
  unfold floor_log2. fold ln ld.
  destruct (Qle_bool (2 ^ (ln - ld)) x) eqn:Hb.
  - apply Qle_bool_iff in Hb. done.
  - assert (Hlt : (x < 2 ^ (ln - ld))%Q).
    { apply Qnot_le_lt. intros Hle. apply Qle_bool_iff in Hle. congruence. }
    replace (ln - ld - 1 + 1) with (ln - ld) by lia.
    split; [by apply Qlt_le_weak|done].
Qed.

(** It is the only integer with that property. *)
Lemma floor_log2_unique (x : Q) (e : Z) :
  (2 ^ e <= x < 2 ^ (e + 1))%Q → floor_log2 x = e.
Proof.
  intros [Hlo Hhi].
  assert (Hx : (0 < x)%Q) by (pose proof (pow2_pos e); lra).
  destruct (floor_log2_spec x Hx) as [Hlo' Hhi'].
  assert (floor_log2 x < e + 1) by (apply pow2_lt_inv; lra).
  assert (e < floor_log2 x + 1) by (apply pow2_lt_inv; lra).
  lia.
Qed.

Lemma pow2_sub (a b : Z) : (2 ^ a / 2 ^ b == 2 ^ (a - b))%Q.
Proof.
  replace a with ((a - b) + b) at 1 by lia. rewrite pow2_add.
  field. pose proof (pow2_pos b). lra.
Qed.

Lemma pow2_split (a b : Z) : (2 ^ a == 2 ^ (a - b) * 2 ^ b)%Q.
Proof. rewrite <- pow2_add. by replace (a - b + b) with a by lia. Qed.

Lemma Qdiv_le_mono (x y c : Q) : (0 < c)%Q → (x <= y)%Q → (x / c <= y / c)%Q.
Proof.
  intros Hc Hxy. unfold Qdiv. apply Qmult_le_r; [|done].
  by apply Qinv_lt_0_compat.
Qed.

Lemma binary64_round_pos_eq (x : Q) :
  binary64_round_pos x
  = (inject_Z (rne (x / 2 ^ ulp_exp x)) * 2 ^ ulp_exp x)%Q.
Proof. reflexivity. Qed.

Lemma binary64_round_pos_proper (x y : Q) :
  (0 < x)%Q → (x == y)%Q → (binary64_round_pos x == binary64_round_pos y)%Q.
Proof.
  intros Hx Hxy. rewrite !binary64_round_pos_eq.
  assert (He : floor_log2 y = floor_log2 x).
  { apply floor_log2_unique. rewrite <- Hxy. by apply floor_log2_spec. }
  unfold ulp_exp. rewrite He.
  generalize (Z.max (floor_log2 x - 52) (-1074)). intros p.
  assert (Hq : (x / 2 ^ p == y / 2 ^ p)%Q) by by rewrite Hxy.
  by rewrite (rne_proper _ _ Hq).
Qed.

Lemma binary64_round_pos_nonneg (x : Q) :
  (0 < x)%Q → (0 <= binary64_round_pos x)%Q.
Proof.
  intros Hx. rewrite binary64_round_pos_eq.
  pose proof (pow2_pos (ulp_exp x)) as Hp.
  apply Qmult_le_0_compat; [|lra].
  rewrite <- (Zle_Qle 0). rewrite <- (rne_Z 0). apply rne_mono.
  apply Qle_shift_div_l; [done|].
  change (inject_Z 0) with 0%Q. rewrite Qmult_0_l. lra.
Qed.

(** A value at most a power of two that is a multiple of its unit rounds to
    at most that power. *)
Lemma binary64_round_pos_le_pow2 (x : Q) (E : Z) :
  (0 < x)%Q → (x <= 2 ^ E)%Q → ulp_exp x ≤ E →
  (binary64_round_pos x <= 2 ^ E)%Q.
Proof.
  intros Hx HxE HpE. rewrite binary64_round_pos_eq.
  set (p := ulp_exp x) in *. pose proof (pow2_pos p) as Hp.
  assert (Hr : rne (x / 2 ^ p) ≤ 2 ^ (E - p)).
  { rewrite <- (rne_Z (2 ^ (E - p))). apply rne_mono.
    rewrite pow2_Z by lia. rewrite <- pow2_sub. by apply Qdiv_le_mono. }
  rewrite Zle_Qle, pow2_Z in Hr by lia.
  rewrite (pow2_split E p). by apply Qmult_le_r.
Qed.

(** A normal value rounds to at least the power of two below it. *)
Lemma binary64_round_pos_ge_pow2 (x : Q) :
  (0 < x)%Q → -1074 ≤ floor_log2 x - 52 →
  (2 ^ floor_log2 x <= binary64_round_pos x)%Q.
Proof.
  intros Hx Hnormal. rewrite binary64_round_pos_eq.
  unfold ulp_exp. rewrite Z.max_l by lia.
  set (e := floor_log2 x). pose proof (pow2_pos (e - 52)) as Hp.
  destruct (floor_log2_spec x Hx) as [Hlo _]. fold e in Hlo.
  assert (Hr : 2 ^ 52 ≤ rne (x / 2 ^ (e - 52))).
  { rewrite <- (rne_Z (2 ^ 52)) at 1. apply rne_mono.
    rewrite pow2_Z by lia.
    assert (H52 : (2 ^ 52 == 2 ^ e / 2 ^ (e - 52))%Q).
    { rewrite pow2_sub. by replace (e - (e - 52)) with 52 by lia. }
    rewrite H52. by apply Qdiv_le_mono. }
  rewrite Zle_Qle, pow2_Z in Hr by lia.
  replace e with (52 + (e - 52)) at 1 by lia. rewrite pow2_add.
  by apply Qmult_le_r.
Qed.

Lemma floor_log2_mono (x y : Q) :
  (0 < x)%Q → (x <= y)%Q → floor_log2 x ≤ floor_log2 y.
Proof.
  intros Hx Hxy.
  destruct (floor_log2_spec x Hx) as [Hxlo _].
  destruct (floor_log2_spec y ltac:(lra)) as [_ Hyhi].
  assert (floor_log2 x < floor_log2 y + 1) by (apply pow2_lt_inv; lra).
  lia.
Qed.

Lemma binary64_round_pos_mono (x y : Q) :
  (0 < x)%Q → (x <= y)%Q →
  (binary64_round_pos x <= binary64_round_pos y)%Q.
Proof.
  intros Hx Hxy. assert (Hy : (0 < y)%Q) by lra.
  pose proof (floor_log2_mono x y Hx Hxy) as He.
  destruct (Z.eq_dec (ulp_exp x) (ulp_exp y)) as [Hp|Hp].
  - rewrite !binary64_round_pos_eq, Hp.
    pose proof (pow2_pos (ulp_exp y)) as Hpos.
    apply Qmult_le_r; [done|]. rewrite <- Zle_Qle. apply rne_mono.
    by apply Qdiv_le_mono.
  - assert (Hlt : floor_log2 x < floor_log2 y ∧ -1074 < floor_log2 y - 52).
    { unfold ulp_exp in Hp. lia. }
    destruct Hlt as [Hlt Hnormal].
    eapply Qle_trans; [|apply binary64_round_pos_ge_pow2; [done|lia]].
    apply binary64_round_pos_le_pow2; [done| |unfold ulp_exp; lia].
    destruct (floor_log2_spec x Hx) as [_ Hxhi].
    eapply Qle_trans; [apply Qlt_le_weak, Hxhi|]. apply pow2_le. lia.
Qed.

(** A multiple of the unit of its binade is a binary64 value. *)
Lemma binary64_round_pos_multiple (x : Q) (m : Z) :
  (x / 2 ^ ulp_exp x == inject_Z m)%Q → (binary64_round_pos x == x)%Q.
Proof.
  intros Hm. rewrite binary64_round_pos_eq.
  rewrite (rne_proper _ _ Hm), rne_Z, <- Hm.
  field. pose proof (pow2_pos (ulp_exp x)). lra.
Qed.

Lemma binary64_round_pos_Z (z : Z) :
  0 < z < 2 ^ 53 →
  (binary64_round_pos (inject_Z z) == inject_Z z)%Q.
Proof.
  intros [Hz0 Hz53].
  assert (He : floor_log2 (inject_Z z) = Z.log2 z).
  { apply floor_log2_unique. by apply inject_Z_log2. }
  assert (Hlog : 0 ≤ Z.log2 z < 53).
  { split; [apply Z.log2_nonneg|]. by apply Z.log2_lt_pow2. }
  apply (binary64_round_pos_multiple _ (z * 2 ^ (52 - Z.log2 z))).
  unfold ulp_exp. rewrite He, Z.max_l by lia.
  rewrite inject_Z_mult, pow2_Z by lia.
  replace (Z.log2 z - 52) with (- (52 - Z.log2 z)) by lia.
  rewrite Qpower_opp. field.
  pose proof (pow2_pos (52 - Z.log2 z)). lra.
Qed.

Lemma Qnum_pos_iff (x : Q) : 0 < Qnum x ↔ (0 < x)%Q.
Proof. unfold Qlt. simpl. lia. Qed.

Lemma Qnum_zero_iff (x : Q) : Qnum x = 0 ↔ (x == 0)%Q.
Proof. unfold Qeq. simpl. lia. Qed.

Lemma Qnum_neg_iff (x : Q) : Qnum x < 0 ↔ (x < 0)%Q.
Proof. unfold Qlt. simpl. lia. Qed.

Lemma binary64_round_of_pos (x : Q) :
  (0 < x)%Q → binary64_round x = binary64_round_pos x.
Proof.
  intros Hx%Qnum_pos_iff. unfold binary64_round.
  by destruct (Qnum x).
Qed.

Lemma binary64_round_of_zero (x : Q) : (x == 0)%Q → binary64_round x = 0%Q.
Proof. intros Hx%Qnum_zero_iff. unfold binary64_round. by rewrite Hx. Qed.

Lemma binary64_round_of_neg (x : Q) :
  (x < 0)%Q → binary64_round x = (- binary64_round_pos (- x))%Q.
Proof.
  intros Hx%Qnum_neg_iff. unfold binary64_round.
  by destruct (Qnum x).
Qed.

Lemma binary64_round_proper (x y : Q) :
  (x == y)%Q → (binary64_round x == binary64_round y)%Q.
Proof.
  intros Hxy.
  destruct (Q_dec x 0) as [[Hneg|Hpos]|Hzero].
  - rewrite !binary64_round_of_neg by lra.
    apply Qopp_comp, binary64_round_pos_proper; lra.
  - rewrite !binary64_round_of_pos by lra.
    by apply binary64_round_pos_proper.
  - rewrite !binary64_round_of_zero by lra. reflexivity.
Qed.

(** Rounding is monotone on the numbers that are not negative. *)
Lemma binary64_round_mono (x y : Q) :
  (0 <= x)%Q → (x <= y)%Q →
  (0 <= binary64_round x <= binary64_round y)%Q.
Proof.
  intros Hx Hxy.
  destruct (Qle_lt_or_eq _ _ Hx) as [Hpos|Hzero].
  - rewrite !binary64_round_of_pos by lra. split.
    + by apply binary64_round_pos_nonneg.
    + by apply binary64_round_pos_mono.
  - rewrite (binary64_round_of_zero x) by lra. split; [lra|].
    destruct (Qle_lt_or_eq 0 y ltac:(lra)) as [Hy|Hy].
    + rewrite binary64_round_of_pos by done.
      by apply binary64_round_pos_nonneg.
    + rewrite binary64_round_of_zero by lra. lra.
Qed.

(** The integers below [2 ^ 53] are binary64 values. *)
Lemma binary64_round_Z (z : Z) :
  0 ≤ z < 2 ^ 53 → (binary64_round (inject_Z z) == inject_Z z)%Q.
Proof.
  intros [Hz0 Hz53]. destruct (Z.eq_dec z 0) as [->|Hne].
  - by rewrite binary64_round_of_zero.
  - rewrite binary64_round_of_pos by (rewrite <- (Zlt_Qlt 0); lia).
    apply binary64_round_pos_Z. lia.
Qed.

Lemma sign_proper (x y : Q) :
  (x == y)%Q →
  match Qnum x with Z.neg _ => true | _ => false end
  = match Qnum y with Z.neg _ => true | _ => false end.
Proof.
  intros Hxy. destruct (Q_dec x 0) as [[Hneg|Hpos]|Hzero].
  - assert (Hy : (y < 0)%Q) by lra.
    apply Qnum_neg_iff in Hneg. apply Qnum_neg_iff in Hy.
    destruct (Qnum x), (Qnum y); (done || lia).
  - assert (Hy : (0 < y)%Q) by lra.
    apply Qnum_pos_iff in Hpos. apply Qnum_pos_iff in Hy.
    destruct (Qnum x), (Qnum y); (done || lia).
  - assert (Hy : (y == 0)%Q) by lra.
    apply Qnum_zero_iff in Hzero. apply Qnum_zero_iff in Hy.
    by rewrite Hzero, Hy.
Qed.

Lemma to_double_proper (x y : Q) :
  (x == y)%Q → to_double x = to_double y.
Proof.
  intros Hxy. unfold to_double. cbv zeta.
  pose proof (binary64_round_proper x y Hxy) as Hr.
  assert (Hb : Qle_bool (2 ^ 1024) (Qabs (binary64_round x))
               = Qle_bool (2 ^ 1024) (Qabs (binary64_round y))).
  { apply eq_true_iff_eq. rewrite !Qle_bool_iff. rewrite Hr. reflexivity. }
  rewrite Hb, (sign_proper x y Hxy).
  by rewrite (proj2 (Q2Qc_eq_iff _ _) Hr).
Qed.

Lemma pow2_53_lt_1024 : (inject_Z (2 ^ 53) < 2 ^ 1024)%Q.
Proof.
  rewrite pow2_Z by lia. by apply Qpower_lt_compat_l.
Qed.

(** A number between 0 and an integer below [2 ^ 53] rounds to a finite
    value in the same range. *)
Lemma to_double_bounded (x : Q) (z : Z) :
  (0 <= x <= inject_Z z)%Q → z < 2 ^ 53 →
  ∃ r : Qc, to_double x = Finite r ∧ (0 <= r <= inject_Z z)%Q.
Proof.
  intros [Hx0 Hxz] Hz.
  assert (Hz0 : 0 ≤ z)
    by (rewrite Zle_Qle; change (inject_Z 0) with 0%Q; lra).
  destruct (binary64_round_mono x (inject_Z z) Hx0 Hxz) as [Hr0 Hrz].
  rewrite binary64_round_Z in Hrz by lia.
  exists (Q2Qc (binary64_round x)). split.
  - unfold to_double.
    assert (Hb : Qle_bool (2 ^ 1024) (Qabs (binary64_round x)) = false).
    { apply not_true_iff_false. rewrite Qle_bool_iff, Qabs_pos by done.
      pose proof pow2_53_lt_1024 as H53.
      assert (inject_Z z < inject_Z (2 ^ 53))%Q by (rewrite <- Zlt_Qlt; lia).
      lra. }
    by rewrite Hb.
  - simpl. rewrite Qred_correct. done.
Qed.



Lemma this_Qcplus (a b : Qc) : (this (a + b)%Qc == this a + this b)%Q.
Proof. simpl. apply Qred_correct. Qed.





Lemma foldl_double_add_bounded (l : list Qc) (s : Qc) (k : Z) :
  Forall (λ q, (0 ≤ q ≤ Qc_of_Z 10)%Qc) l →
  (0 <= s <= inject_Z (10 * k))%Q →
  10 * (k + Z.of_nat (length l)) < 2 ^ 53 →
  ∃ s' : Qc,
    foldl double_add (Finite s) l = Finite s'
    ∧ (0 <= s' <= inject_Z (10 * (k + Z.of_nat (length l))))%Q.
Proof.
  intros Hall. revert s k.
  induction Hall as [|x l [Hx0 Hx10] _ IH]; intros s k [Hs0 Hsk] Hlen.
  - exists s. cbn [foldl length]. rewrite Z.add_0_r. done.
  - cbn [length] in Hlen. rewrite Nat2Z.inj_succ in Hlen.
    unfold Qcle in Hx0, Hx10. simpl in Hx0, Hx10.
    change (Qred 0) with 0%Q in Hx0.
    destruct (to_double_bounded (s + x)%Qc (10 * (k + 1))) as (r & Hr & Hr0 & Hrk);
      [|lia|].
    { rewrite this_Qcplus. rewrite inject_Z_mult, inject_Z_plus in *.
      change (inject_Z 10) with 10%Q in *. change (inject_Z 1) with 1%Q.
      split; lra. }
    destruct (IH r (k + 1)) as (s' & Hs' & Hs'0 & Hs'k); [done|lia|].
    exists s'. cbn [foldl double_add length]. rewrite Hr, Hs'.
    split; [done|]. rewrite Nat2Z.inj_succ.
    by replace (k + Z.succ (Z.of_nat (length l)))
      with (k + 1 + Z.of_nat (length l)) by lia.
Qed.

Lemma binary64_mean_bounded (l : list Qc) :
  l ≠ [] →
  Forall (λ q, (0 ≤ q ≤ Qc_of_Z 10)%Qc) l →
  10 * Z.of_nat (length l) < 2 ^ 53 →
  ∃ avg : Qc, binary64_mean l = Finite avg ∧ (0 <= avg <= 10)%Q.
Proof.
  intros Hne Hall Hlen.
  destruct (foldl_double_add_bounded l 0%Qc 0 Hall) as (s & Hs & Hs0 & Hsn);
    [done|lia|].
  rewrite Z.add_0_l in Hsn.
  set (n := Z.of_nat (length l)) in *.
  assert (Hn : 0 < n) by (destruct l; [done|]; unfold n; cbn [length]; lia).
  assert (HnQ : (0 < inject_Z n)%Q) by (rewrite <- (Zlt_Qlt 0); lia).
  rewrite inject_Z_mult in Hsn. change (inject_Z 10) with 10%Q in Hsn.
  unfold binary64_mean. rewrite Hs. cbn [double_div]. fold n.
  assert (Hq : (s / binary64_round (inject_Z n) == s / inject_Z n)%Q).
  { rewrite binary64_round_Z by lia. reflexivity. }
  rewrite (to_double_proper _ _ Hq).
  destruct (to_double_bounded (s / inject_Z n) 10) as (avg & Havg & Hrange);
    [|lia|by exists avg].
  change (inject_Z 10) with 10%Q. split.
  - apply Qle_shift_div_l; [done|]. lra.
  - apply Qle_shift_div_r; [done|]. lra.
Qed.

Lemma round1_bounded (avg : Qc) :
  (0 <= avg <= 10)%Q →
  ∃ tenths : Z,
    0 ≤ tenths ≤ 100 ∧ round1 (Finite avg) = to_double (tenths # 10).
Proof.
  intros [H0 H10]. exists (rne (10 * avg)). split.
  - split.
    + rewrite <- (rne_Z 0). apply rne_mono. change (inject_Z 0) with 0%Q. lra.
    + rewrite <- (rne_Z 100). apply rne_mono.
      change (inject_Z 100) with 100%Q. lra.
  - reflexivity.
Qed.

(** *** The average *)

Lemma Finite_eq (a b : Qc) : (a == b)%Q → Finite a = Finite b.
Proof. intros Hab. f_equal. by apply Qc_is_canon. Qed.


Lemma average_rating_of (t : MediaTable) :
  average_rating (statistics_of t)
  = match omap row_rating (rows t) with
    | [] => Finite 0%Qc
    | q :: l =>
        match binary64_mean (q :: l) with
        | Finite avg =>
            if bool_decide (avg = 0%Qc) then Finite 0%Qc
            else round1 (Finite avg)
        | Infinity negative => Infinity negative
        end
    end.
Proof.
  unfold statistics_of, select_avg_rating, sql_avg.
  cbn [average_rating].
  destruct (omap row_rating (rows t)) as [|q l]; [done|].
  cbn [truthy default from_option]. unfold Datatypes.id.
  destruct (binary64_mean (q :: l)) as [avg|negative]; [|done].
  by case_bool_decide.
Qed.



(** *** The breakdown sums to the total *)

Lemma sum_values_insert (d : gmap (option string) nat) k v :
  d !! k = None → sum_values (<[k := v]> d) = (v + sum_values d)%nat.
Proof.
  intros Hk. unfold sum_values.
  rewrite map_fold_insert_L; [done| |done].
  intros; lia.
Qed.

Lemma sum_values_foldl_insert (f : option string → nat)
    (keys : list (option string)) (d : gmap (option string) nat) :
  NoDup keys → (∀ k, k ∈ keys → d !! k = None) →
  sum_values (foldl (λ d v, <[v := f v]> d) d keys)
  = (sum_values d + sum_list (f <$> keys))%nat.
Proof.
  revert d. induction keys as [|k keys IH]; intros d Hnd Hfresh; simpl.
  - lia.
  - apply NoDup_cons in Hnd as [Hk Hnd].
    rewrite IH; [|done|].
    + rewrite sum_values_insert by (apply Hfresh; left). unfold fmap. lia.
    + intros k' Hk'. rewrite lookup_insert_ne by (intros ->; done).
      apply Hfresh. by right.
Qed.

Lemma sum_list_cons (n : nat) (l : list nat) :
  sum_list (n :: l) = (n + sum_list l)%nat.
Proof. reflexivity. Qed.

Lemma sum_list_indicator (x : option string) (keys : list (option string)) :
  NoDup keys →
  sum_list ((λ k, if bool_decide (k = x) then 1 else 0)%nat <$> keys)
  = (if bool_decide (x ∈ keys) then 1 else 0)%nat.
Proof.
  induction 1 as [|k keys Hk Hnd IH]; [done|].
  rewrite fmap_cons, sum_list_cons, IH.
  destruct (decide (k = x)) as [->|Hne].
  - rewrite bool_decide_eq_true_2 by done.
    rewrite (bool_decide_eq_false_2 (x ∈ keys)) by done.
    rewrite bool_decide_eq_true_2; [done|left].
  - rewrite (bool_decide_eq_false_2 (k = x)) by done. simpl.
    apply (f_equal (λ b : bool, if b then 1%nat else 0%nat)).
    apply bool_decide_ext. rewrite elem_of_cons. intuition congruence.
Qed.

Lemma sql_eq_Some_l (x : string) (k : option string) :
  sql_eq (Some x) k = bool_decide (k = Some x).
Proof.
  destruct k as [y|]; simpl; [|done].
  apply bool_decide_ext. naive_solver.
Qed.

(** Over a list of distinct keys that covers every value of the column, the
    per-key counts add up to the number of rows, as long as no row has NULL
    in that column. *)
Lemma sum_counts_is_length (col : Row → option string) (l : list Row)
    (keys : list (option string)) :
  NoDup keys →
  (∀ r, r ∈ l → is_Some (col r) ∧ col r ∈ keys) →
  sum_list ((λ k, length (filter (λ r, Is_true (sql_eq (col r) k)) l)) <$> keys)
  = length l.
Proof.
  intros Hnd. induction l as [|r l IH]; intros Hl.
  - clear Hnd Hl. induction keys as [|k keys IHk]; [done|].
    by rewrite fmap_cons, sum_list_cons, IHk.
  - destruct (Hl r) as [[x Hx] Hin]; [left|].
    transitivity
      (sum_list ((λ k, if bool_decide (k = Some x) then 1 else 0)%nat <$> keys)
       + sum_list ((λ k, length (filter (λ r, Is_true (sql_eq (col r) k)) l))
                   <$> keys))%nat.
    + clear IH Hnd Hin Hl. induction keys as [|k keys IHk]; [done|].
      rewrite !fmap_cons, !sum_list_cons, IHk.
      rewrite filter_cons. rewrite Hx, sql_eq_Some_l.
      destruct (bool_decide (k = Some x)) eqn:Hb.
      * rewrite decide_True by done. simpl. lia.
      * rewrite decide_False by (by intros []). lia.
    + rewrite sum_list_indicator by done.
      rewrite Hx in Hin. rewrite bool_decide_eq_true_2 by done.
      rewrite IH; [done|]. intros r' Hr'. apply Hl. by right.
Qed.

Lemma void_state {S A} (m : method S A) (s : S) : (void m s).2 = (m s).2.
Proof.
  unfold void, mbind, method_bind. by destruct (m s) as [[a|e] s'].
Qed.

(** A search changes nothing, whether it returns or raises. *)
Lemma search_by_title_state q s : (search_by_title q s).2 = s.
Proof.
  destruct s as [t|]; [|done].
  unfold search_by_title, select_title_like. open_method.
  by destruct (_ && _).
Qed.

Lemma create_record_well_formed now media s :
  well_formed s → well_formed (create_record now media s).2.
Proof.
  intros (t & -> & Hwf).
  destruct (not_null_violation media) as [msg|] eqn:Hnn.
  - rewrite (create_record_Some_rejected _ _ _ _ Hnn). by exists t.
  - rewrite (create_record_Some_ok _ _ _ Hnn). simpl.
    eexists. split; [done|]. simpl.
    apply Forall_app. split; [done|]. constructor; [|constructor].
    unfold not_null_violation in Hnn. simpl.
    destruct (title media), (media_type media); naive_solver.
Qed.

Lemma update_record_well_formed media s :
  well_formed s → well_formed (update_record media s).2.
Proof.
  intros (t & -> & Hwf).
  unfold update_record, update_media. open_method.
  destruct (filter _ (rows t)) as [|r0 hit] eqn:Hhit.
  - simpl. eexists. split; [done|]. simpl.
    apply Forall_fmap, Forall_forall. intros r Hr. simpl.
    destruct (id_matches (id media) r) eqn:Hm.
    + exfalso.
      assert (r ∈ filter (λ r, Is_true (id_matches (id media) r)) (rows t))
        as Hin.
      { apply list_elem_of_filter. by rewrite Hm. }
      rewrite Hhit in Hin. inversion Hin.
    + by apply (proj1 (Forall_forall _ _) Hwf).
  - destruct (not_null_violation media) as [msg|] eqn:Hnn; simpl.
    + by exists t.
    + eexists. split; [done|]. simpl.
      apply Forall_fmap, Forall_forall. intros r Hr. simpl.
      destruct (id_matches (id media) r).
      * unfold not_null_violation in Hnn. simpl.
        destruct (title media), (media_type media); naive_solver.
      * by apply (proj1 (Forall_forall _ _) Hwf).
Qed.

Lemma delete_record_well_formed media_id s :
  well_formed s → well_formed (delete_record media_id s).2.
Proof.
  intros (t & -> & Hwf). simpl. eexists. split; [done|]. simpl.
  apply Forall_forall. intros r [_ Hr]%list_elem_of_filter.
  by apply (proj1 (Forall_forall _ _) Hwf).
Qed.

Lemma store_run_well_formed c s : well_formed s → well_formed (store_run c s).2.
Proof.
  intros Hwf. destruct c; simpl; rewrite void_state;
    try (destruct Hwf as (t & -> & Hwf);
         first [rewrite get_record_Some | rewrite get_statistics_Some
               | rewrite search_by_title_state | idtac];
         by exists t).
  - by apply create_record_well_formed.
  - by apply update_record_well_formed.
  - by apply delete_record_well_formed.
Qed.

Lemma reachable_store_well_formed s : reachable_store s → well_formed s.
Proof.
  induction 1 as [|c s _ IH].
  - exists empty_table. split; [done|]. constructor.
  - by apply store_run_well_formed.
Qed.

(** C3. In every reachable state of a store, [get_statistics] and
    [get_all_records] both return, [total_items] is the number of items
    listed, and the counts of [type_breakdown] add up to [total_items]. *)
Theorem statistics_total_matches (s : Store) :
  reachable_store s →
  ∃ stats all,
    get_statistics s = (Ok stats, s)
    ∧ get_all_records s = (Ok all, s)
    ∧ total_items stats = length all
    ∧ sum_values (type_breakdown stats) = total_items stats.
Proof.
  intros (t & -> & Hwf)%reachable_store_well_formed.
  exists (statistics_of t), (_row_to_media <$> select_all t).
  split; [apply get_statistics_Some|].
  split; [apply get_all_records_Some|].
  split.
  - rewrite length_fmap. unfold select_all, order_by_desc. simpl.
    by rewrite merge_sort_Permutation.
  - simpl. unfold breakdown_of, select_distinct.
    rewrite sum_values_foldl_insert.
    + unfold select_count_where, select_count, sum_values.
      rewrite map_fold_empty. simpl.
      apply sum_counts_is_length; [apply NoDup_remove_dups|].
      intros r Hr. split.
      * by apply (proj1 (Forall_forall _ _) Hwf).
      * apply elem_of_remove_dups, list_elem_of_fmap. eauto.
    + apply NoDup_remove_dups.
    + intros k _. apply lookup_empty.
Qed.

Lemma statistics_total_matches_witness :
  ∃ stats all,
    get_statistics two_creates = (Ok stats, two_creates)
    ∧ get_all_records two_creates = (Ok all, two_creates)
    ∧ total_items stats = length all
    ∧ sum_values (type_breakdown stats) = total_items stats.
Proof.
  apply statistics_total_matches.
  apply reachable_call, reachable_call, reachable_fresh.
Defined.

(** ** The user registry *)

Lemma media_db_name_not_users u : media_db_name u ≠ "users.db".
Proof. discriminate. Qed.

Lemma string_length_app (s1 s2 : string) :
  String.length (s1 +:+ s2) = (String.length s1 + String.length s2)%nat.
Proof.
  induction s1 as [|c s1 IH]; [done|].
  change (S (String.length (s1 +:+ s2))
          = S (String.length s1 + String.length s2)).
  by rewrite IH.
Qed.

Lemma string_app_inj_r (s s1 s2 : string) : s1 +:+ s = s2 +:+ s → s1 = s2.
Proof.
  revert s2. induction s1 as [|c s1 IH]; intros [|c2 s2] Heq.
  - done.
  - apply (f_equal String.length) in Heq.
    rewrite !string_length_app in Heq. simpl in Heq. lia.
  - apply (f_equal String.length) in Heq.
    rewrite !string_length_app in Heq. simpl in Heq. lia.
  - injection Heq as -> Heq. f_equal. by apply IH.
Qed.

Lemma media_db_name_inj u1 u2 : media_db_name u1 = media_db_name u2 → u1 = u2.
Proof.
  unfold media_db_name. intros Heq.
  injection Heq as Heq. change (u1 +:+ ".db" = u2 +:+ ".db") in Heq.
  by apply string_app_inj_r in Heq.
Qed.

Lemma database_eta db :
  {| Users_table := Users_table db; Media_table := Media_table db |} = db.
Proof. by destruct db. Qed.

(** The INSERT of [create_user], case by case. *)
Lemma insert_user_run now u (w : World) :
  on_connection "users.db" (on_Users (insert_user now u)) w
  = match w !! "users.db" with
    | Some (DbFile db) =>
        match Users_table db with
        | Some t =>
            if bool_decide (u ∈ (username <$> user_rows t))
            then (Raise (IntegrityError
                           "UNIQUE constraint failed: Users.username"), w)
            else (Ok (),
                  <["users.db" :=
                      DbFile {| Users_table := Some (with_user now u t);
                                Media_table := Media_table db |}]> w)
        | None => (Raise (OperationalError "no such table: Users"), w)
        end
    | _ => (Raise (OperationalError "unable to open database file"), w)
    end.
Proof.
  unfold on_connection, on_Users, with_user.
  destruct (w !! "users.db") as [[|db]|] eqn:Hw; [done| |done].
  destruct (Users_table db) as [t|] eqn:Ht.
  - unfold insert_user. case_bool_decide; simpl; [|done].
    f_equal. rewrite <- Ht, database_eta. by apply insert_id.
  - f_equal. by apply insert_id.
Qed.

(** [setup_media_database], case by case. *)
Lemma setup_media_database_run u (w : World) :
  setup_media_database u w
  = match w !! media_db_name u with
    | Some NotDatabase =>
        (Raise (OperationalError "unable to open database file"), w)
    | Some (DbFile db) =>
        (Ok (), <[media_db_name u := DbFile (create_Media_if_not_exists db).2]> w)
    | None =>
        (Ok (), <[media_db_name u :=
                    DbFile {| Users_table := None;
                              Media_table := Some empty_table |}]> w)
    end.
Proof.
  unfold setup_media_database, mbind, method_bind, connect, on_connection.
  fold (media_db_name u).
  destruct (w !! media_db_name u) as [[|db]|] eqn:Hw.
  - done.
  - by rewrite Hw.
  - rewrite lookup_insert_eq. simpl. by rewrite insert_insert_eq.
Qed.

(** What a successful [create_user] has done. *)
Lemma create_user_true_inv now u (w w' : World) :
  create_user now u w = (Ok true, w') →
  ∃ db t,
    w !! "users.db" = Some (DbFile db)
    ∧ Users_table db = Some t
    ∧ (u ∉ (username <$> user_rows t))
    ∧ setup_media_database u
        (<["users.db" := DbFile {| Users_table := Some (with_user now u t);
                                   Media_table := Media_table db |}]> w)
      = (Ok (), w').
Proof.
  unfold create_user. unfold mbind at 1, method_bind at 1.
  rewrite insert_user_run.
  destruct (w !! "users.db") as [[|db]|] eqn:Hw; [done| |done].
  destruct (Users_table db) as [t|] eqn:Ht; [|done].
  case_bool_decide as Hin; [done|].
  unfold mbind, method_bind.
  destruct (setup_media_database u _) as [[[]|e] w1] eqn:Hsetup.
  - simpl. intros [= <-]. by exists db, t.
  - destruct e; simpl; discriminate.
Qed.

Lemma registered_with_user now u t :
  u ∉ (username <$> user_rows t) →
  username <$> user_rows (with_user now u t) = (username <$> user_rows t) ++ [u].
Proof.
  intros Hin. unfold with_user, insert_user.
  rewrite bool_decide_eq_false_2 by done. simpl. by rewrite fmap_app.
Qed.

(** After a successful [create_user] the registry holds the old usernames
    followed by the new one. *)
Lemma create_user_true_registry now u (w w' : World) :
  create_user now u w = (Ok true, w') →
  ∃ db' t',
    w' !! "users.db" = Some (DbFile db')
    ∧ Users_table db' = Some t'
    ∧ (u ∉ registered w)
    ∧ username <$> user_rows t' = registered w ++ [u].
Proof.
  intros (db & t & Hw & Ht & Hin & Hsetup)%create_user_true_inv.
  rewrite setup_media_database_run in Hsetup.
  rewrite lookup_insert_ne in Hsetup by (symmetry; apply media_db_name_not_users).
  unfold registered. rewrite Hw, Ht.
  eexists _, (with_user now u t).
  destruct (w !! media_db_name u) as [[|dbm]|] eqn:Hm;
    [done|injection Hsetup as <-..];
    (rewrite lookup_insert_ne by apply media_db_name_not_users;
     rewrite lookup_insert_eq;
     split; [done|]; split; [done|]; split; [done|];
     by apply registered_with_user).
Qed.

(** [create_user] for a username the registry already holds. *)
Lemma create_user_registered now u (w : World) db t :
  w !! "users.db" = Some (DbFile db) →
  Users_table db = Some t →
  u ∈ (username <$> user_rows t) →
  create_user now u w = (Ok false, w).
Proof.
  intros Hw Ht Hin. unfold create_user.
  unfold mbind at 1, method_bind at 1.
  rewrite insert_user_run, Hw, Ht.
  by rewrite bool_decide_eq_true_2.
Qed.

Lemma get_all_users_run (w : World) db t :
  w !! "users.db" = Some (DbFile db) →
  Users_table db = Some t →
  get_all_users w = (Ok (select_usernames t), w).
Proof.
  intros Hw Ht.
  unfold get_all_users, except_sqlite3_Error, on_connection, on_Users, query.
  rewrite Hw, Ht. f_equal. rewrite <- Ht, database_eta. by apply insert_id.
Qed.

Lemma occurrences_select_usernames u t :
  occurrences u (select_usernames t)
  = occurrences u (username <$> user_rows t).
Proof.
  unfold occurrences, select_usernames.
  by rewrite merge_sort_Permutation.
Qed.

Lemma occurrences_fresh u l : u ∉ l → occurrences u (l ++ [u]) = 1%nat.
Proof.
  intros Hin. unfold occurrences.
  rewrite filter_app, filter_nil_iff by (by intros x Hx ->).
  by rewrite filter_cons_True.
Qed.

(** C8. Once [create_user u] has returned [True], calling it again returns
    [False] instead of raising and changes nothing, and [get_all_users] then
    lists [u] exactly once. *)
Theorem create_user_twice (now now' u : string) (w w' : World) :
  create_user now u w = (Ok true, w') →
  create_user now' u w' = (Ok false, w')
  ∧ ∃ users,
      get_all_users w' = (Ok users, w')
      ∧ occurrences u users = 1%nat.
Proof.
  intros (db' & t' & Hw' & Ht' & Hfresh & Hreg)%create_user_true_registry.
  split.
  - apply (create_user_registered _ _ _ db' t'); [done|done|].
    rewrite Hreg. apply elem_of_app. right. left.
  - exists (select_usernames t').
    split; [by apply (get_all_users_run _ db')|].
    rewrite occurrences_select_usernames, Hreg.
    by apply occurrences_fresh.
Qed.

Lemma create_user_twice_witness :
  create_user "2024-03-02 09:00:00" "ann"
    (create_user "2024-03-01 09:00:00" "ann" after_setup).2
  = (Ok false, (create_user "2024-03-01 09:00:00" "ann" after_setup).2)
  ∧ ∃ users,
      get_all_users (create_user "2024-03-01 09:00:00" "ann" after_setup).2
      = (Ok users, (create_user "2024-03-01 09:00:00" "ann" after_setup).2)
      ∧ occurrences "ann" users = 1%nat.
Proof.
  apply (create_user_twice "2024-03-01 09:00:00" _ _ after_setup).
  vm_compute. reflexivity.
Defined.

(** C10. The INSERT into the registry is committed before the store is
    provisioned.  When the INSERT of [create_user] has gone through and
    [setup_media_database] then raises, [create_user] raises [Exception]
    with that error, yet the username stays registered: [get_all_users]
    lists it and a retry returns [False]. *)
Theorem create_user_not_atomic
    (now now' u : string) (w wa wb : World) (e : exn) :
  on_connection "users.db" (on_Users (insert_user now u)) w = (Ok (), wa) →
  setup_media_database u wa = (Raise e, wb) →
  create_user now u w
  = (Raise (Exception ("Error creating user: " +:+ exn_str e)), wb)
  ∧ (∃ users, get_all_users wb = (Ok users, wb) ∧ u ∈ users)
  ∧ create_user now' u wb = (Ok false, wb).
Proof.
  intros Hinsert Hsetup.
  assert (Hrun : create_user now u w
                 = (Raise (Exception ("Error creating user: " +:+ exn_str e)),
                    wb)).
  { unfold create_user. unfold mbind at 1, method_bind at 1.
    rewrite Hinsert. unfold mbind, method_bind. rewrite Hsetup.
    rewrite setup_media_database_run in Hsetup.
    destruct (wa !! media_db_name u) as [[|dbm]|]; [|done..].
    by injection Hsetup as <- <-. }
  rewrite insert_user_run in Hinsert.
  destruct (w !! "users.db") as [[|db]|] eqn:Hw; [done| |done].
  destruct (Users_table db) as [t|] eqn:Ht; [|done].
  case_bool_decide as Hfresh; [done|]. injection Hinsert as <-.
  set (db' := {| Users_table := Some (with_user now u t);
                 Media_table := Media_table db |}).
  assert (wb = <["users.db" := DbFile db']> w) as ->.
  { rewrite setup_media_database_run in Hsetup.
    destruct (_ !! media_db_name u) as [[|dbm]|]; [|done..].
    by injection Hsetup as _ <-. }
  assert (Hin : u ∈ (username <$> user_rows (with_user now u t))).
  { rewrite registered_with_user by done. apply elem_of_app. right. left. }
  split; [done|]. split.
  - exists (select_usernames (with_user now u t)). split.
    + apply (get_all_users_run _ db'); [apply lookup_insert_eq|done].
    + unfold select_usernames. by rewrite merge_sort_Permutation.
  - apply (create_user_registered _ _ _ db' (with_user now u t));
      [apply lookup_insert_eq|done|done].
Qed.

Lemma create_user_not_atomic_witness :
  create_user "2024-03-01 09:00:00" "bad" with_obstacle
  = (Raise (Exception "Error creating user: unable to open database file"),
     bad_registered)
  ∧ (∃ users,
       get_all_users bad_registered = (Ok users, bad_registered)
       ∧ "bad" ∈ users)
  ∧ create_user "2024-03-02 09:00:00" "bad" bad_registered
    = (Ok false, bad_registered).
Proof.
  apply (create_user_not_atomic "2024-03-01 09:00:00" "2024-03-02 09:00:00"
           "bad" with_obstacle bad_registered bad_registered
           (OperationalError "unable to open database file")).
  - vm_compute. reflexivity.
  - vm_compute. reflexivity.
Defined.

(** ** Provisioning *)

(** [DatabaseModel(db_name)] and one method call, case by case. *)
Lemma DatabaseModel_run {A} db_name (m : method Store A) (w : World) :
  DatabaseModel db_name m w
  = match w !! db_name with
    | Some NotDatabase =>
        (Raise (Exception
           "Database connection error: unable to open database file"), w)
    | Some (DbFile db) =>
        let '(r, s') := m (Media_table db) in
        (r, <[db_name := DbFile {| Users_table := Users_table db;
                                   Media_table := s' |}]> w)
    | None =>
        let '(r, s') := m None in
        (r, <[db_name := DbFile {| Users_table := None;
                                   Media_table := s' |}]> w)
    end.
Proof.
  unfold DatabaseModel, mbind, method_bind, except_sqlite3_Error, connect,
    on_connection, on_Media.
  destruct (w !! db_name) as [[|db]|] eqn:Hw; simpl.
  - done.
  - rewrite Hw. by destruct (m (Media_table db)).
  - rewrite lookup_insert_eq. simpl.
    destruct (m None). by rewrite insert_insert_eq.
Qed.

(** C9, as stated, fails: a successful [create_user] does not always leave
    an empty store.  [setup_media_database] creates the Media table only if
    it is not there, so a store that exists under the name of a user who is
    not registered yet is kept, with its rows, when the user is created. *)
Lemma create_user_adopts_existing_store :
  (registered stale_store = []
   ∧ ∃ w' found,
       create_user "2024-03-01 09:00:00" "ann" stale_store = (Ok true, w')
       ∧ DatabaseModel ("media_library_" +:+ "ann" +:+ ".db") get_all_records w'
         = (Ok found, w')
       ∧ title <$> found = [Some "Old"])
  ∧ ¬ ∀ (now u : string) (w w' : World),
        u ∉ registered w →
        create_user now u w = (Ok true, w') →
        DatabaseModel ("media_library_" +:+ u +:+ ".db") get_all_records w'
        = (Ok [], w').
Proof.
  assert (Hrun : ∃ w' found,
            create_user "2024-03-01 09:00:00" "ann" stale_store = (Ok true, w')
            ∧ DatabaseModel ("media_library_" +:+ "ann" +:+ ".db")
                get_all_records w'
              = (Ok found, w')
            ∧ title <$> found = [Some "Old"]).
  { eexists _, _. split; [vm_compute; reflexivity|].
    split; [vm_compute; reflexivity|reflexivity]. }
  assert (Hfresh : registered stale_store = []) by (vm_compute; reflexivity).
  split; [by split|].
  intros Hclaim. destruct Hrun as (w' & found & Hcreate & Hlist & Htitles).
  assert (Hnot : "ann" ∉ registered stale_store)
    by (rewrite Hfresh; apply not_elem_of_nil).
  rewrite (Hclaim _ _ _ _ Hnot Hcreate) in Hlist.
  injection Hlist as <-. discriminate Htitles.
Qed.

(** C9, amended.  For a username that has no record store yet, a
    [create_user] that returns [True] leaves a database at the path made of
    ["media_library_"], the username and [".db"], with an empty Media table:
    a record store opened on that path lists no records and does not
    raise. *)
Theorem create_user_provisions_empty_store (now u : string) (w w' : World) :
  no_store u w →
  create_user now u w = (Ok true, w') →
  ∃ db,
    w' !! ("media_library_" +:+ u +:+ ".db") = Some (DbFile db)
    ∧ Media_table db = Some empty_table
    ∧ DatabaseModel ("media_library_" +:+ u +:+ ".db") get_all_records w'
      = (Ok [], w').
Proof.
  intros Hnone Hcreate.
  fold (media_db_name u).
  pose proof Hcreate as (db & t & Hw & Ht & Hfresh & Hsetup)%create_user_true_inv.
  rewrite setup_media_database_run in Hsetup.
  rewrite lookup_insert_ne in Hsetup by (symmetry; apply media_db_name_not_users).
  assert (Hnew : ∃ dbm, w' !! media_db_name u = Some (DbFile dbm)
                        ∧ Media_table dbm = Some empty_table).
  { destruct (w !! media_db_name u) as [[|dbm]|] eqn:Hm.
    - done.
    - injection Hsetup as <-. eexists. rewrite lookup_insert_eq.
      split; [done|]. simpl. by rewrite (Hnone dbm Hm).
    - injection Hsetup as <-. eexists. by rewrite lookup_insert_eq. }
  destruct Hnew as (dbm & Hlook & Hempty).
  exists dbm. split; [done|]. split; [done|].
  rewrite DatabaseModel_run, Hlook, Hempty. simpl. f_equal.
  rewrite <- Hempty, database_eta. by apply insert_id.
Qed.

Lemma create_user_provisions_empty_store_witness :
  ∃ db,
    (create_user "2024-03-01 09:00:00" "cat" two_libraries).2
      !! ("media_library_" +:+ "cat" +:+ ".db") = Some (DbFile db)
    ∧ Media_table db = Some empty_table
    ∧ DatabaseModel ("media_library_" +:+ "cat" +:+ ".db") get_all_records
        (create_user "2024-03-01 09:00:00" "cat" two_libraries).2
      = (Ok [], (create_user "2024-03-01 09:00:00" "cat" two_libraries).2).
Proof.
  apply (create_user_provisions_empty_store "2024-03-01 09:00:00" "cat"
           two_libraries).
  - intros db Hlook. vm_compute in Hlook. discriminate Hlook.
  - vm_compute. reflexivity.
Defined.

(** ** Searching by title *)

Lemma like_percent pat s :
  like (String "%"%char pat) s
  = like pat s
    || match s with
       | EmptyString => false
       | String _ s' => like (String "%"%char pat) s'
       end.
Proof. by destruct s. Qed.

Lemma like_percent_only s : like "%" s = true.
Proof.
  induction s as [|c s IH]; [done|].
  rewrite like_percent. change (like "" (String c s)) with false.
  by rewrite IH.
Qed.

Lemma like_literal_prefix q s :
  no_wildcard q = true →
  like (q +:+ "%") s = is_prefix (string_lower q) (string_lower s).
Proof.
  revert s. induction q as [|a q IH]; intros s Hq.
  - change ("" +:+ "%") with "%". rewrite like_percent_only. by destruct s.
  - simpl in Hq.
    apply andb_true_iff in Hq as [[Ha1 Ha2]%andb_true_iff Hq].
    apply negb_true_iff in Ha1, Ha2.
    change (String a q +:+ "%") with (String a (q +:+ "%")).
    destruct s as [|c s]; simpl; rewrite Ha1; [done|].
    rewrite Ha2. simpl. by rewrite IH.
Qed.

Lemma like_contains q s :
  no_wildcard q = true →
  like ("%" +:+ q +:+ "%") s = contains (string_lower q) (string_lower s).
Proof.
  intros Hq. change ("%" +:+ q +:+ "%") with (String "%"%char (q +:+ "%")).
  induction s as [|c s IH]; rewrite like_percent, like_literal_prefix by done.
  - by destruct (string_lower q).
  - by rewrite IH.
Qed.

Lemma c_str_no_nul (s : string) : no_nul s = true → c_str s = s.
Proof.
  induction s as [|c s IH]; [done|]. cbn [no_nul c_str].
  intros [Hc Hs]%andb_true_iff. apply negb_true_iff in Hc.
  by rewrite Hc, IH.
Qed.

Lemma no_nul_app (s1 s2 : string) :
  no_nul s1 = true → no_nul s2 = true → no_nul (s1 +:+ s2) = true.
Proof.
  intros H1 H2. induction s1 as [|c s1 IH]; [done|].
  change (String c s1 +:+ s2) with (String c (s1 +:+ s2)).
  cbn [no_nul] in *. apply andb_true_iff in H1 as [Hc H1].
  by rewrite Hc, IH.
Qed.

(** What LIKE decides for a query without [%], [_] and NUL: whether the
    title, read up to its first NUL, contains the query up to ASCII case. *)
Lemma sql_like_literal q (ti : option string) :
  no_wildcard q = true → no_nul q = true →
  sql_like ti (Some ("%" +:+ q +:+ "%")) = title_contains q (c_str <$> ti).
Proof.
  intros Hq Hnul. destruct ti as [ti|]; [|done].
  unfold sql_like, title_contains. cbn [fmap option_fmap option_map].
  rewrite (c_str_no_nul ("%" +:+ q +:+ "%")).
  - by apply like_contains.
  - apply (no_nul_app "%"); [done|]. by apply no_nul_app.
Qed.

(** For a query without [%], [_] and NUL that fits the pattern limit, on
    titles without NUL, [search_by_title] returns what the specification
    asks: the items whose title contains the query up to ASCII case, by
    title ascending. *)
Lemma search_by_title_literal q t :
  no_wildcard q = true → no_nul q = true →
  utf8_length q + 2 ≤ SQLITE_MAX_LIKE_PATTERN_LENGTH →
  (∀ r ti, r ∈ rows t → row_title r = Some ti → no_nul ti = true) →
  search_by_title q (Some t) = (Ok (search_by_title_spec q t), Some t).
Proof.
  intros Hq Hnul Hlen Htitles. rewrite search_by_title_Some by done.
  unfold search_by_title_spec, rows_title_like. do 4 f_equal.
  apply filter_ext_in. intros r Hr.
  rewrite sql_like_literal by done.
  destruct (row_title r) as [ti|] eqn:Hti; [|done].
  cbn [fmap option_fmap option_map].
  by rewrite (c_str_no_nul ti) by by apply (Htitles r).
Qed.

(** The example of the specification: with "Alpha" and "beta" stored, the
    query "ALP" finds "Alpha" and nothing else. *)
Lemma search_by_title_ALP :
  ∃ found,
    search_by_title "ALP" (Some alpha_beta) = (Ok found, Some alpha_beta)
    ∧ title <$> found = [Some "Alpha"].
Proof. eexists. split; reflexivity. Qed.

(** C2, at the query ["_"]. No title of the sample store contains an
    underscore, so the specification asks for an empty result; the LIKE
    pattern ["%_%"] that [search_by_title] builds treats the underscore as
    a wildcard and finds both items. *)
Theorem search_by_title_underscore :
  search_by_title_spec "_" alpha_beta = []
  ∧ ∃ found,
      search_by_title "_" (Some alpha_beta) = (Ok found, Some alpha_beta)
      ∧ title <$> found = [Some "Alpha"; Some "beta"].
Proof.
  split; [reflexivity|]. eexists. split; reflexivity.
Qed.

(** * Further properties of the record store *)

(** ** Deleting *)

Lemma get_record_missing_is_None_aux t media_id :
  (∀ r, r ∈ rows t → row_id r ≠ media_id) →
  get_record media_id (Some t) = (Ok None, Some t).
Proof.
  intros Hmiss. rewrite get_record_Some. unfold select_by_id.
  rewrite filter_nil_iff; [done|]. intros r Hr. by apply Hmiss.
Qed.

Lemma filter_all {A} (P : A → Prop) `{∀ x, Decision (P x)} (l : list A) :
  (∀ x, x ∈ l → P x) → filter P l = l.
Proof.
  induction l as [|x l IH]; intros Hl; [done|].
  rewrite filter_cons_True by (apply Hl; left).
  f_equal. apply IH. intros y Hy. apply Hl. by right.
Qed.

Lemma delete_record_Some media_id t :
  delete_record media_id (Some t)
  = (Ok (bool_decide (0 < length (filter (λ r, row_id r = media_id) (rows t)))%nat),
     Some {| rows := filter (λ r, row_id r ≠ media_id) (rows t);
             seq := seq t |}).
Proof. reflexivity. Qed.

Lemma select_by_id_filter_ne i j l s s' :
  j ≠ i →
  select_by_id j {| rows := filter (λ r, row_id r ≠ i) l; seq := s |}
  = select_by_id j {| rows := l; seq := s' |}.
Proof.
  intros Hne. unfold select_by_id. simpl. f_equal.
  induction l as [|r l IH]; [done|].
  rewrite !filter_cons.
  destruct (decide (row_id r ≠ i)) as [Hr|Hr].
  - rewrite filter_cons. destruct (decide (row_id r = j)); by rewrite IH.
  - destruct (decide (row_id r = j)) as [Hj|Hj]; [|done].
    exfalso. apply Hr. congruence.
Qed.

(** X1. Deleting an identifier that some row has returns [True] and removes
    it: a lookup of that identifier then returns [None] and a second delete
    returns [False] without changing the store again. *)
Theorem delete_record_then_gone (t : MediaTable) (media_id : Z) :
  (∃ r, r ∈ rows t ∧ row_id r = media_id) →
  ∃ t',
    delete_record media_id (Some t) = (Ok true, Some t')
    ∧ get_record media_id (Some t') = (Ok None, Some t')
    ∧ delete_record media_id (Some t') = (Ok false, Some t').
Proof.
  intros (r & Hr & Hid).
  exists {| rows := filter (λ r, row_id r ≠ media_id) (rows t); seq := seq t |}.
  assert (Hgone : ∀ r', r' ∈ filter (λ r, row_id r ≠ media_id) (rows t) →
                        row_id r' ≠ media_id).
  { by intros r' [? _]%list_elem_of_filter. }
  split; [|split].
  - rewrite delete_record_Some. do 2 f_equal.
    apply bool_decide_eq_true_2.
    assert (r ∈ filter (λ r, row_id r = media_id) (rows t)) as Hin
      by by apply list_elem_of_filter.
    destruct (filter (λ r, row_id r = media_id) (rows t));
      [inversion Hin|simpl; lia].
  - by apply get_record_missing_is_None_aux.
  - rewrite delete_record_Some. simpl.
    rewrite (filter_nil_iff (λ r, row_id r = media_id)) by done.
    by rewrite filter_all by done.
Qed.

Lemma delete_record_then_gone_witness :
  ∃ t',
    delete_record 1 (Some alpha_beta) = (Ok true, Some t')
    ∧ get_record 1 (Some t') = (Ok None, Some t')
    ∧ delete_record 1 (Some t') = (Ok false, Some t').
Proof.
  apply delete_record_then_gone.
  eexists. split; [left|reflexivity].
Defined.

(** X2. Deleting an identifier of the 64-bit range that no row has returns
    [False] and leaves the store exactly as it was. *)
Theorem delete_record_missing_no_effect (t : MediaTable) (media_id : Z) :
  int64 media_id →
  (∀ r, r ∈ rows t → row_id r ≠ media_id) →
  delete_record media_id (Some t) = (Ok false, Some t).
Proof.
  intros _ Hmiss. rewrite delete_record_Some.
  rewrite (filter_nil_iff (λ r, row_id r = media_id)) by done.
  rewrite filter_all by done. by rewrite table_eta.
Qed.

Lemma delete_record_missing_no_effect_witness :
  delete_record 7 (Some alpha_beta) = (Ok false, Some alpha_beta).
Proof.
  apply delete_record_missing_no_effect.
  - unfold int64. lia.
  - apply Forall_forall. repeat constructor; done.
Defined.

(** X3. Deleting one identifier does not disturb the others: a lookup of any
    other identifier returns the same item after the delete as before, and
    the listing shrinks by exactly the number of rows that had the deleted
    identifier. *)
Theorem delete_record_keeps_others (t : MediaTable) (media_id other : Z) :
  other ≠ media_id →
  ∃ t',
    (delete_record media_id (Some t)).2 = Some t'
    ∧ (get_record other (Some t')).1 = (get_record other (Some t)).1
    ∧ (length (rows t')
       + length (filter (λ r, row_id r = media_id) (rows t)))%nat
      = length (rows t).
Proof.
  intros Hne. eexists. split; [by rewrite delete_record_Some|].
  split.
  - rewrite !get_record_Some. simpl. do 2 f_equal.
    rewrite (select_by_id_filter_ne _ _ _ _ (seq t)) by done.
    by rewrite table_eta.
  - simpl. induction (rows t) as [|r l IH]; [done|].
    rewrite !filter_cons.
    destruct (decide (row_id r = media_id)) as [Hr|Hr].
    + rewrite decide_False by tauto. simpl. lia.
    + rewrite decide_True by done. simpl. lia.
Qed.

Lemma delete_record_keeps_others_witness :
  ∃ t',
    (delete_record 1 (Some alpha_beta)).2 = Some t'
    ∧ (get_record 2 (Some t')).1 = (get_record 2 (Some alpha_beta)).1
    ∧ (length (rows t')
       + length (filter (λ r, (row_id r = 1)%Z) (rows alpha_beta)))%nat
      = length (rows alpha_beta).
Proof. apply delete_record_keeps_others. done. Defined.

(** ** Updating *)

Lemma head_filter_fmap {A} (P : A → Prop) `{∀ x, Decision (P x)}
    (f : A → A) (l : list A) :
  (∀ x, P (f x) ↔ P x) →
  head (filter P (f <$> l)) = f <$> head (filter P l).
Proof.
  intros Hf. induction l as [|x l IH]; [done|].
  rewrite fmap_cons, !filter_cons.
  destruct (decide (P x)) as [Hx|Hx].
  - by rewrite decide_True by by apply Hf.
  - by rewrite decide_False by by rewrite Hf.
Qed.

(** The UPDATE on a table where it is allowed to run. *)
Lemma update_record_Some_ok media t :
  not_null_violation media = None →
  update_record media (Some t)
  = (Ok (bool_decide
           (0 < length (filter (λ r, Is_true (id_matches (id media) r))
                          (rows t)))%nat),
     Some {| rows := (λ r, if id_matches (id media) r
                           then set_columns media r else r) <$> rows t;
             seq := seq t |}).
Proof.
  intros Hnn. unfold update_record, update_media. open_method.
  rewrite Hnn. by destruct (filter _ (rows t)).
Qed.

(** X4. Updating an item whose identifier is stored, with a title and a
    media type present, returns [True]; the lookup of that identifier then
    returns the new values of the nine data fields under the same identifier
    and the same [date_added]; every other identifier reads as before and
    the number of rows is unchanged. *)
Theorem update_record_then_get
    (t : MediaTable) (media : Media) (media_id : Z) (old : Media) :
  is_Some (title media) → is_Some (media_type media) →
  id media = Some media_id →
  get_record media_id (Some t) = (Ok (Some old), Some t) →
  ∃ t' got,
    update_record media (Some t) = (Ok true, Some t')
    ∧ get_record media_id (Some t') = (Ok (Some got), Some t')
    ∧ same_data got media
    ∧ id got = Some media_id
    ∧ date_added got = date_added old
    ∧ length (rows t') = length (rows t)
    ∧ ∀ other, other ≠ media_id →
        (get_record other (Some t')).1 = (get_record other (Some t)).1.
Proof.
  intros [ti Hti] [ty Hty] Hid Hold.
  assert (Hnn : not_null_violation media = None).
  { unfold not_null_violation. by rewrite Hti, Hty. }
  rewrite get_record_Some in Hold.
  destruct (select_by_id media_id t) as [r|] eqn:Hsel; [|done].
  injection Hold as <-.
  assert (Hm : ∀ r', id_matches (id media) r' = bool_decide (row_id r' = media_id)).
  { intros r'. unfold id_matches. rewrite Hid. simpl.
    apply bool_decide_ext. done. }
  set (upd := λ r', if id_matches (id media) r' then set_columns media r' else r').
  assert (Hupd_id : ∀ r', row_id (upd r') = row_id r').
  { intros r'. unfold upd. by destruct (id_matches (id media) r'). }
  assert (Hsel' : ∀ j, select_by_id j {| rows := upd <$> rows t; seq := seq t |}
                       = upd <$> select_by_id j t).
  { intros j. unfold select_by_id. simpl.
    apply (head_filter_fmap (λ r, row_id r = j)).
    intros r'. by rewrite Hupd_id. }
  assert (Hrid : row_id r = media_id).
  { unfold select_by_id in Hsel. apply head_Some_elem_of in Hsel.
    by apply list_elem_of_filter in Hsel as [? _]. }
  exists {| rows := upd <$> rows t; seq := seq t |},
    (_row_to_media (set_columns media r)).
  split; [|split; [|split; [|split; [|split; [|split]]]]].
  - rewrite update_record_Some_ok by done. do 2 f_equal.
    apply bool_decide_eq_true_2.
    unfold select_by_id in Hsel.
    assert (r ∈ filter (λ r, Is_true (id_matches (id media) r)) (rows t)) as Hin.
    { apply head_Some_elem_of in Hsel.
      apply list_elem_of_filter in Hsel as [_ Hin].
      apply list_elem_of_filter. split; [|done].
      rewrite Hm. by apply bool_decide_pack. }
    destruct (filter (λ r, Is_true (id_matches (id media) r)) (rows t));
      [inversion Hin|simpl; lia].
  - rewrite get_record_Some, Hsel', Hsel. simpl. do 3 f_equal.
    unfold upd. rewrite Hm. by rewrite bool_decide_eq_true_2.
  - repeat split.
  - simpl. by rewrite Hrid.
  - done.
  - simpl. by rewrite length_fmap.
  - intros other Hne. rewrite !get_record_Some, Hsel'. simpl. do 2 f_equal.
    destruct (select_by_id other t) as [r'|] eqn:Hsel2; [|done].
    simpl. f_equal. unfold upd. rewrite Hm.
    rewrite bool_decide_eq_false_2; [done|].
    unfold select_by_id in Hsel2. apply head_Some_elem_of in Hsel2.
    apply list_elem_of_filter in Hsel2 as [? _]. congruence.
Qed.

Lemma update_record_then_get_witness :
  ∃ t' got,
    update_record
      {| id := Some 2; title := Some "Beta"; media_type := Some "Film";
         genre := Some "Drama"; release_date := Some ""; director := Some "";
         description := Some ""; rating := None; status := Some "Dropped";
         image_path := Some ""; date_added := Some "" |}
      (Some alpha_beta)
    = (Ok true, Some t')
    ∧ get_record 2 (Some t') = (Ok (Some got), Some t')
    ∧ same_data got
        {| id := Some 2; title := Some "Beta"; media_type := Some "Film";
           genre := Some "Drama"; release_date := Some ""; director := Some "";
           description := Some ""; rating := None; status := Some "Dropped";
           image_path := Some ""; date_added := Some "" |}
    ∧ id got = Some 2
    ∧ date_added got
      = date_added (_row_to_media
          {| row_id := 2; row_title := Some "beta";
             row_media_type := Some "Film"; row_genre := Some "Drama";
             row_release_date := Some ""; row_director := Some "";
             row_description := Some ""; row_rating := Some (Qc_of_Z 9);
             row_status := Some "Completed"; row_image_path := Some "";
             row_date_added := Some "2024-01-02 10:00:00" |})
    ∧ length (rows t') = length (rows alpha_beta)
    ∧ ∀ other, other ≠ 2 →
        (get_record other (Some t')).1 = (get_record other (Some alpha_beta)).1.
Proof.
  apply update_record_then_get; simpl; eauto.
Defined.

(** X5. Updating a stored item with a title or a media type that is [None]
    is rejected by the NOT NULL constraint: the method raises [Exception]
    and the store is unchanged. *)
Theorem update_record_rejects_null
    (t : MediaTable) (media : Media) (media_id : Z) (old : Media) :
  title media = None ∨ media_type media = None →
  id media = Some media_id →
  get_record media_id (Some t) = (Ok (Some old), Some t) →
  ∃ msg, update_record media (Some t) = (Raise (Exception msg), Some t).
Proof.
  intros Hnull Hid Hold.
  rewrite get_record_Some in Hold.
  destruct (select_by_id media_id t) as [r|] eqn:Hsel; [|done].
  assert (∃ msg, not_null_violation media = Some msg) as [msg Hnn].
  { unfold not_null_violation.
    destruct Hnull as [-> | ->]; [by eexists|].
    destruct (title media); by eexists. }
  exists ("Error updating record: " +:+ msg).
  unfold update_record, update_media. open_method. rewrite Hnn.
  unfold select_by_id in Hsel. apply head_Some_elem_of in Hsel.
  apply list_elem_of_filter in Hsel as [Hrid Hin].
  assert (r ∈ filter (λ r, Is_true (id_matches (id media) r)) (rows t)) as Hhit.
  { apply list_elem_of_filter. split; [|done].
    unfold id_matches. rewrite Hid. simpl. by apply bool_decide_pack. }
  by destruct (filter (λ r, Is_true (id_matches (id media) r)) (rows t));
    [inversion Hhit|].
Qed.

Lemma update_record_rejects_null_witness :
  ∃ msg,
    update_record
      {| id := Some 2; title := None; media_type := Some "Film";
         genre := None; release_date := None; director := None;
         description := None; rating := None; status := None;
         image_path := None; date_added := None |}
      (Some alpha_beta)
    = (Raise (Exception msg), Some alpha_beta).
Proof.
  apply (update_record_rejects_null _ _ 2
           (_row_to_media
              {| row_id := 2; row_title := Some "beta";
                 row_media_type := Some "Film"; row_genre := Some "Drama";
                 row_release_date := Some ""; row_director := Some "";
                 row_description := Some ""; row_rating := Some (Qc_of_Z 9);
                 row_status := Some "Completed"; row_image_path := Some "";
                 row_date_added := Some "2024-01-02 10:00:00" |}));
    [by left|reflexivity|reflexivity].
Defined.

(** ** Identifiers *)

Lemma max_rowid_le l b :
  0 ≤ b → Forall (λ r, row_id r ≤ b) l → max_rowid l ≤ b.
Proof.
  intros Hb. induction 1 as [|r l Hr _ IH]; simpl; lia.
Qed.

(** One call keeps the identifiers well formed and never lowers the
    AUTOINCREMENT counter. *)
Lemma store_run_ids c t :
  ids_well_formed (Some t) →
  ∃ t', (store_run c (Some t)).2 = Some t'
        ∧ ids_well_formed (Some t')
        ∧ seq t ≤ seq t'.
Proof.
  intros Hwf.
  assert (Hsame : ∃ t', Some t = Some t' ∧ ids_well_formed (Some t')
                        ∧ seq t ≤ seq t') by (exists t; done).
  destruct Hwf as (t0 & [= <-] & Hnd & Hall & Hseq).
  destruct c; unfold store_run; rewrite void_state;
    try (first [rewrite get_record_Some | rewrite get_statistics_Some
               | rewrite search_by_title_state | idtac];
         exact Hsame).
  - (* create_record *)
    destruct (not_null_violation media) as [msg|] eqn:Hnn.
    + by rewrite (create_record_Some_rejected _ _ _ _ Hnn).
    + rewrite (create_record_Some_ok _ _ _ Hnn). simpl.
      assert (Hmax : max_rowid (rows t) ≤ seq t).
      { apply max_rowid_le; [done|].
        eapply Forall_impl; [exact Hall|]. simpl. intros; lia. }
      rewrite Z.max_l by done.
      eexists. split; [done|]. split; [|simpl; lia].
      eexists. split; [done|]. simpl. split; [|split; [|lia]].
      * rewrite fmap_app. apply NoDup_app. split; [done|]. split.
        -- intros i Hi [->|Habs]%elem_of_cons; [|inversion Habs].
           apply list_elem_of_fmap in Hi as (r & Hr & Hin).
           pose proof (proj1 (Forall_forall _ _) Hall r Hin) as Hb.
           simpl in Hr, Hb. lia.
        -- apply NoDup_singleton.
      * apply Forall_app. split.
        -- eapply Forall_impl; [exact Hall|]. simpl. intros; lia.
        -- constructor; [simpl; lia|constructor].
  - (* update_record *)
    unfold update_record, update_media. open_method.
    set (upd := λ r, if id_matches (id media) r then set_columns media r else r).
    assert (Hupd : ids_well_formed
                     (Some {| rows := upd <$> rows t; seq := seq t |})).
    { eexists. split; [done|]. simpl.
      assert (Hid : row_id <$> (upd <$> rows t) = row_id <$> rows t).
      { rewrite <- list_fmap_compose. apply Forall_fmap_ext_1, Forall_forall.
        intros r _. simpl. unfold upd. by destruct (id_matches (id media) r). }
      split; [by rewrite Hid|]. split; [|done].
      apply Forall_fmap. eapply Forall_impl; [exact Hall|].
      intros r Hr. simpl. unfold upd. by destruct (id_matches (id media) r). }
    destruct (filter _ (rows t)) as [|r0 hit]; simpl.
    + eexists. split; [done|]. split; [exact Hupd|simpl; lia].
    + destruct (not_null_violation media); simpl; [exact Hsame|].
      eexists. split; [done|]. split; [exact Hupd|simpl; lia].
  - (* delete_record *)
    rewrite delete_record_Some. simpl.
    eexists. split; [done|]. split; [|simpl; lia].
    eexists. split; [done|]. simpl. split; [|split; [|done]].
    + apply (sublist_NoDup _ (row_id <$> rows t)); [done|].
      apply fmap_sublist, sublist_filter.
    + apply Forall_forall. intros r [_ Hr]%list_elem_of_filter.
      by apply (proj1 (Forall_forall _ _) Hall).
Qed.

Lemma store_runs_ids cs t :
  ids_well_formed (Some t) →
  ∃ t', store_runs cs (Some t) = Some t'
        ∧ ids_well_formed (Some t')
        ∧ seq t ≤ seq t'.
Proof.
  revert t. induction cs as [|c cs IH]; intros t Hwf.
  - exists t. split; [done|]. split; [done|lia].
  - destruct (store_run_ids c t Hwf) as (t1 & Hrun & Hwf1 & Hle1).
    destruct (IH t1 Hwf1) as (t2 & Hruns & Hwf2 & Hle2).
    exists t2. unfold store_runs in *. simpl. rewrite Hrun.
    split; [done|]. split; [done|lia].
Qed.

Lemma reachable_store_ids s : reachable_store s → ids_well_formed s.
Proof.
  induction 1 as [|c s _ (t & -> & IH)].
  - exists empty_table. split; [done|]. simpl.
    split; [constructor|]. split; [constructor|done].
  - destruct (store_run_ids c t) as (t' & -> & Hwf & _); [|done].
    by exists t.
Qed.

(** What [create_record] returns on a store with well-formed identifiers:
    the counter plus one, which becomes the new counter. *)
Lemma create_record_ids now media t new_id s' :
  ids_well_formed (Some t) →
  create_record now media (Some t) = (Ok new_id, s') →
  new_id = seq t + 1 ∧ ∃ t', s' = Some t' ∧ seq t' = new_id.
Proof.
  intros (t0 & [= <-] & Hnd & Hall & Hseq) Hcreate.
  destruct (not_null_violation media) as [msg|] eqn:Hnn.
  - by rewrite (create_record_Some_rejected _ _ _ _ Hnn) in Hcreate.
  - rewrite (create_record_Some_ok _ _ _ Hnn) in Hcreate.
    assert (Hmax : max_rowid (rows t) ≤ seq t).
    { apply max_rowid_le; [done|].
      eapply Forall_impl; [exact Hall|]. simpl. intros; lia. }
    rewrite Z.max_l in Hcreate by done.
    injection Hcreate as <- <-. split; [done|]. by eexists.
Qed.

(** X6. In every reachable state of a store the identifiers of the rows are
    pairwise distinct and positive, and none is above the counter that
    AUTOINCREMENT keeps, so a lookup by identifier has at most one
    candidate. *)
Theorem identifiers_distinct (s : Store) :
  reachable_store s →
  ∃ t, s = Some t
       ∧ NoDup (row_id <$> rows t)
       ∧ ∀ r, r ∈ rows t → 0 < row_id r ≤ seq t.
Proof.
  intros (t & -> & Hnd & Hall & _)%reachable_store_ids.
  exists t. split; [done|]. split; [done|].
  by apply Forall_forall.
Qed.

Lemma identifiers_distinct_witness :
  ∃ t, four_calls = Some t
       ∧ NoDup (row_id <$> rows t)
       ∧ ∀ r, r ∈ rows t → 0 < row_id r ≤ seq t.
Proof.
  apply identifiers_distinct.
  do 4 apply reachable_call. apply reachable_fresh.
Defined.

(** X7. Identifiers are never reused: once [create_record] has returned an
    identifier, every later [create_record] on that store returns a larger
    one, whatever calls are made in between, deletes of the newest row
    included. *)
Theorem identifiers_never_reused
    (s s1 s2 : Store) (now now' : string) (media media' : Media)
    (new_id later_id : Z) (cs : list store_call) :
  reachable_store s →
  create_record now media s = (Ok new_id, s1) →
  create_record now' media' (store_runs cs s1) = (Ok later_id, s2) →
  new_id < later_id.
Proof.
  intros (t & -> & Hwf)%reachable_store_ids Hfirst Hlater.
  pose proof (store_run_ids (CreateRecord now media) t
                (ex_intro _ t (conj eq_refl Hwf))) as (t1' & Hrun & Hwf1 & _).
  simpl in Hrun. rewrite void_state, Hfirst in Hrun. simpl in Hrun.
  destruct (create_record_ids _ _ _ _ _ (ex_intro _ t (conj eq_refl Hwf)) Hfirst)
    as (_ & t1 & -> & Hseq1).
  injection Hrun as <-.
  destruct (store_runs_ids cs t1 Hwf1) as (t2 & Hruns & Hwf2 & Hle).
  rewrite Hruns in Hlater.
  destruct (create_record_ids _ _ _ _ _ Hwf2 Hlater) as (-> & _).
  lia.
Qed.

Lemma identifiers_never_reused_witness : 1 < 2.
Proof.
  eapply (identifiers_never_reused (Some empty_table) _ _
            "2024-02-01 09:00:00" "2024-03-01 09:00:00"
           Media_default Media_default 1 2 [DeleteRecord 1]).
  - apply reachable_fresh.
  - reflexivity.
  - reflexivity.
Defined.

(** ** Listings and filters *)

Lemma text_le_total a b : Is_true (text_le a b) ∨ Is_true (text_le b a).
Proof.
  destruct a as [x|], b as [y|]; simpl; auto.
  apply (String.le_total x y).
Qed.

Lemma text_le_trans a b c :
  Is_true (text_le a b) → Is_true (text_le b c) → Is_true (text_le a c).
Proof.
  destruct a as [x|], b as [y|], c as [z|]; simpl; try done.
  apply (PreOrder_Transitive (R:=String.le)).
Qed.

Lemma order_by_asc_sorted key l :
  StronglySorted (λ r1 r2, Is_true (text_le (key r1) (key r2)))
    (order_by_asc key l).
Proof.
  unfold order_by_asc. apply StronglySorted_merge_sort.
  - intros r1 r2 r3. apply text_le_trans.
  - intros r1 r2. apply text_le_total.
Qed.

Lemma order_by_desc_sorted key l :
  StronglySorted (λ r1 r2, Is_true (text_le (key r2) (key r1)))
    (order_by_desc key l).
Proof.
  unfold order_by_desc. apply StronglySorted_merge_sort.
  - intros r1 r2 r3 H12 H23. by apply (text_le_trans _ (key r2)).
  - intros r1 r2. apply text_le_total.
Qed.

Lemma order_by_asc_perm key l : order_by_asc key l ≡ₚ l.
Proof. apply merge_sort_Permutation. Qed.

Lemma order_by_desc_perm key l : order_by_desc key l ≡ₚ l.
Proof. apply merge_sort_Permutation. Qed.

(** X8. [get_all_records] lists every stored row once, each converted field
    by field, newest [date_added] first. *)
Theorem get_all_records_complete_newest_first (t : MediaTable) :
  ∃ all,
    get_all_records (Some t) = (Ok all, Some t)
    ∧ all ≡ₚ _row_to_media <$> rows t
    ∧ StronglySorted date_added_descending all.
Proof.
  exists (_row_to_media <$> select_all t).
  split; [apply get_all_records_Some|]. split.
  - unfold select_all. by rewrite order_by_desc_perm.
  - apply (StronglySorted_fmap _
             (λ r1 r2, Is_true (text_le (row_date_added r2) (row_date_added r1))));
      [done|apply order_by_desc_sorted].
Qed.

(** X9. [filter_by_type] returns exactly the items whose media type is equal
    to the argument, character for character, each once, by title
    ascending; rows with another type or with none are left out. *)
Theorem filter_by_type_exact (ty : string) (t : MediaTable) :
  ∃ found,
    filter_by_type ty (Some t) = (Ok found, Some t)
    ∧ found
      ≡ₚ _row_to_media <$> filter (λ r, row_media_type r = Some ty) (rows t)
    ∧ StronglySorted title_ascending found.
Proof.
  exists (_row_to_media <$> select_by_type ty t).
  split; [reflexivity|]. split.
  - unfold select_by_type. rewrite order_by_asc_perm.
    apply Permutation_refl'. f_equal. apply list_filter_iff. intros r.
    destruct (row_media_type r) as [x|]; simpl; [|by split].
    rewrite bool_decide_spec. split; congruence.
  - apply (StronglySorted_fmap _
             (λ r1 r2, Is_true (text_le (row_title r1) (row_title r2))));
      [done|apply order_by_asc_sorted].
Qed.

(** X10. [filter_by_status] returns exactly the items whose status is equal
    to the argument, each once, by title ascending; a row whose status is
    NULL matches no argument. *)
Theorem filter_by_status_exact (st : string) (t : MediaTable) :
  ∃ found,
    filter_by_status st (Some t) = (Ok found, Some t)
    ∧ found
      ≡ₚ _row_to_media <$> filter (λ r, row_status r = Some st) (rows t)
    ∧ StronglySorted title_ascending found.
Proof.
  exists (_row_to_media <$> select_by_status st t).
  split; [reflexivity|]. split.
  - unfold select_by_status. rewrite order_by_asc_perm.
    apply Permutation_refl'. f_equal. apply list_filter_iff. intros r.
    destruct (row_status r) as [x|]; simpl; [|by split].
    rewrite bool_decide_spec. split; congruence.
  - apply (StronglySorted_fmap _
             (λ r1 r2, Is_true (text_le (row_title r1) (row_title r2))));
      [done|apply order_by_asc_sorted].
Qed.

(** X11. For a query without [%], [_] and NUL whose pattern fits the limit
    of LIKE (50000 bytes with the two [%] around it), [search_by_title]
    returns exactly the rows whose title, read up to its first NUL, contains
    the query up to ASCII case, each once, by title ascending. *)
Theorem search_by_title_without_wildcards (q : string) (t : MediaTable) :
  no_wildcard q = true → no_nul q = true →
  utf8_length q + 2 ≤ SQLITE_MAX_LIKE_PATTERN_LENGTH →
  ∃ found,
    search_by_title q (Some t) = (Ok found, Some t)
    ∧ found
      ≡ₚ _row_to_media
         <$> filter (λ r, Is_true (title_contains q (c_str <$> row_title r)))
               (rows t)
    ∧ StronglySorted title_ascending found.
Proof.
  intros Hq Hnul Hlen.
  exists (_row_to_media <$> rows_title_like ("%" +:+ q +:+ "%") t).
  split; [by apply search_by_title_Some|]. split.
  - unfold rows_title_like. rewrite order_by_asc_perm.
    apply Permutation_refl'. f_equal. apply list_filter_iff. intros r.
    by rewrite sql_like_literal.
  - apply (StronglySorted_fmap _
             (λ r1 r2, Is_true (text_le (row_title r1) (row_title r2))));
      [done|apply order_by_asc_sorted].
Qed.

Lemma search_by_title_without_wildcards_witness :
  ∃ found,
    search_by_title "ET" (Some alpha_beta) = (Ok found, Some alpha_beta)
    ∧ found
      ≡ₚ _row_to_media
         <$> filter (λ r, Is_true (title_contains "ET" (c_str <$> row_title r)))
               (rows alpha_beta)
    ∧ StronglySorted title_ascending found.
Proof.
  apply search_by_title_without_wildcards; [reflexivity..|].
  vm_compute. discriminate.
Defined.

Lemma contains_empty s : contains "" s = true.
Proof. by destruct s. Qed.

(** X12. With the empty query [search_by_title] finds everything: in every
    reachable state of a store it returns the same items as
    [get_all_records], in another order. *)
Theorem search_by_title_empty_finds_all (s : Store) :
  reachable_store s →
  ∃ found all,
    search_by_title "" s = (Ok found, s)
    ∧ get_all_records s = (Ok all, s)
    ∧ found ≡ₚ all.
Proof.
  intros (t & -> & Hwf)%reachable_store_well_formed.
  exists (_row_to_media <$> rows_title_like ("%" +:+ "" +:+ "%") t),
    (_row_to_media <$> select_all t).
  split; [by apply search_by_title_Some|].
  split; [apply get_all_records_Some|].
  unfold rows_title_like, select_all.
  rewrite order_by_asc_perm, order_by_desc_perm.
  apply Permutation_refl'. f_equal. apply filter_all.
  intros r Hr. destruct (proj1 (Forall_forall _ _) Hwf r Hr) as [[ti ->] _].
  rewrite sql_like_literal by done. simpl.
  by rewrite contains_empty.
Qed.

Lemma search_by_title_empty_finds_all_witness :
  ∃ found all,
    search_by_title "" two_creates = (Ok found, two_creates)
    ∧ get_all_records two_creates = (Ok all, two_creates)
    ∧ found ≡ₚ all.
Proof.
  apply search_by_title_empty_finds_all.
  apply reachable_call, reachable_call, reachable_fresh.
Defined.

(** X13. A created item shows up in the listing: after a [create_record] of
    an item with a title and a media type, [get_all_records] returns the
    items it returned before together with the new one, and nothing else. *)
Theorem create_record_then_listed
    (now : string) (media : Media) (t : MediaTable) :
  is_Some (title media) → is_Some (media_type media) →
  ∃ new_id t' before after,
    create_record now media (Some t) = (Ok new_id, Some t')
    ∧ get_all_records (Some t) = (Ok before, Some t)
    ∧ get_all_records (Some t') = (Ok after, Some t')
    ∧ after ≡ₚ _row_to_media (row_of new_id now media) :: before.
Proof.
  intros [ti Hti] [ty Hty].
  assert (Hnn : not_null_violation media = None).
  { unfold not_null_violation. by rewrite Hti, Hty. }
  eexists _, _, _, _.
  split; [by apply create_record_Some_ok|].
  split; [apply get_all_records_Some|].
  split; [apply get_all_records_Some|].
  unfold select_all. simpl. rewrite !order_by_desc_perm.
  rewrite fmap_app. simpl. by rewrite <- Permutation_cons_append.
Qed.

Lemma create_record_then_listed_witness :
  ∃ new_id t' before after,
    create_record "2024-03-01 09:00:00" Media_default (Some alpha_beta)
    = (Ok new_id, Some t')
    ∧ get_all_records (Some alpha_beta) = (Ok before, Some alpha_beta)
    ∧ get_all_records (Some t') = (Ok after, Some t')
    ∧ after
      ≡ₚ _row_to_media (row_of new_id "2024-03-01 09:00:00" Media_default)
         :: before.
Proof. apply create_record_then_listed; simpl; eauto. Defined.

(** ** More on the statistics *)

Lemma breakdown_of_lookup (col : Row → option string) (t : MediaTable)
    (keys : list (option string))
    (d : gmap (option string) nat) (k : option string) :
  breakdown_of col t keys d !! k
  = if bool_decide (k ∈ keys)
    then Some (select_count_where col k t)
    else d !! k.
Proof.
  unfold breakdown_of. revert d.
  induction keys as [|k0 keys IH]; intros d; cbn [foldl].
  - by rewrite bool_decide_eq_false_2 by apply not_elem_of_nil.
  - rewrite IH. destruct (decide (k ∈ keys)) as [Hin|Hin].
    + rewrite !bool_decide_eq_true_2; [done|by right|done].
    + rewrite (bool_decide_eq_false_2 (k ∈ keys)) by done.
      destruct (decide (k0 = k)) as [->|Hne].
      * rewrite lookup_insert_eq. by rewrite bool_decide_eq_true_2 by left.
      * rewrite lookup_insert_ne by done.
        rewrite bool_decide_eq_false_2; [done|].
        intros [?|?]%elem_of_cons; congruence.
Qed.

Lemma count_where_Some (col : Row → option string) (v : string)
    (t : MediaTable) :
  select_count_where col (Some v) t
  = length (filter (λ r, col r = Some v) (rows t)).
Proof.
  unfold select_count_where. f_equal. apply list_filter_iff. intros r.
  destruct (col r) as [x|]; simpl; [|by split].
  rewrite bool_decide_spec. split; congruence.
Qed.

Lemma count_where_None (col : Row → option string) (t : MediaTable) :
  select_count_where col None t = 0%nat.
Proof.
  unfold select_count_where. rewrite filter_nil_iff; [done|].
  intros r _. destruct (col r); simpl; tauto.
Qed.

Lemma breakdown_lookup_Some (col : Row → option string) (t : MediaTable)
    (v : string) :
  breakdown_of col t (select_distinct col t) ∅ !! Some v
  = let n := length (filter (λ r, col r = Some v) (rows t)) in
    if bool_decide (n = 0%nat) then None else Some n.
Proof.
  rewrite breakdown_of_lookup, lookup_empty, count_where_Some. simpl.
  unfold select_distinct.
  destruct (decide (Some v ∈ col <$> rows t)) as [Hin|Hin].
  - rewrite bool_decide_eq_true_2 by by apply elem_of_remove_dups.
    rewrite bool_decide_eq_false_2; [done|].
    apply list_elem_of_fmap in Hin as (r & Hr & Hin).
    assert (r ∈ filter (λ r, col r = Some v) (rows t)) as Hf
      by by apply list_elem_of_filter.
    destruct (filter (λ r, col r = Some v) (rows t)); [inversion Hf|done].
  - rewrite bool_decide_eq_false_2 by by rewrite elem_of_remove_dups.
    rewrite bool_decide_eq_true_2; [done|].
    rewrite filter_nil_iff; [done|].
    intros r Hr Hc. apply Hin, list_elem_of_fmap. eauto.
Qed.

(** X14. Each breakdown of [get_statistics] maps a value to the number of
    rows that have it and has no key for a value that no row has: a media
    type (or status) with [n > 0] rows is mapped to [n], any other text is
    not a key. *)
Theorem breakdowns_count_rows (t : MediaTable) :
  ∃ stats,
    get_statistics (Some t) = (Ok stats, Some t)
    ∧ (∀ ty : string,
         type_breakdown stats !! Some ty
         = let n := length (filter (λ r, row_media_type r = Some ty) (rows t)) in
           if bool_decide (n = 0%nat) then None else Some n)
    ∧ (∀ st : string,
         status_breakdown stats !! Some st
         = let n := length (filter (λ r, row_status r = Some st) (rows t)) in
           if bool_decide (n = 0%nat) then None else Some n).
Proof.
  exists (statistics_of t). split; [apply get_statistics_Some|].
  split; intros v; apply breakdown_lookup_Some.
Qed.

(** Over distinct keys that cover every value of the column, the per-key
    counts add up to the number of rows whose value is not NULL. *)
Lemma sum_counts_non_null (col : Row → option string) (l : list Row)
    (keys : list (option string)) :
  NoDup keys →
  (∀ r, r ∈ l → col r ∈ keys) →
  sum_list ((λ k, length (filter (λ r, Is_true (sql_eq (col r) k)) l)) <$> keys)
  = length (filter (λ r, is_Some (col r)) l).
Proof.
  intros Hnd. induction l as [|r l IH]; intros Hl.
  - clear Hnd Hl. induction keys as [|k keys IHk]; [done|].
    by rewrite fmap_cons, sum_list_cons, IHk.
  - assert (Hrest : ∀ r', r' ∈ l → col r' ∈ keys)
      by (intros r' Hr'; apply Hl; by right).
    specialize (IH Hrest).
    destruct (col r) as [x|] eqn:Hx.
    + rewrite (filter_cons_True (λ r, is_Some (col r))) by (rewrite Hx; eauto).
      simpl. rewrite <- IH.
      transitivity
        (sum_list ((λ k, if bool_decide (k = Some x) then 1 else 0)%nat <$> keys)
         + sum_list ((λ k, length (filter (λ r, Is_true (sql_eq (col r) k)) l))
                     <$> keys))%nat.
      * clear IH Hnd Hl Hrest. induction keys as [|k keys IHk]; [done|].
        rewrite !fmap_cons, !sum_list_cons, IHk.
        rewrite filter_cons. rewrite Hx, sql_eq_Some_l.
        destruct (bool_decide (k = Some x)) eqn:Hb.
        -- rewrite decide_True by done. simpl. lia.
        -- rewrite decide_False by (by intros []). lia.
      * rewrite sum_list_indicator by done.
        rewrite bool_decide_eq_true_2; [done|].
        rewrite <- Hx. apply Hl. left.
    + rewrite (filter_cons_False (λ r, is_Some (col r)))
        by (rewrite Hx; by intros [? ?]).
      rewrite <- IH. f_equal. apply Forall_fmap_ext_1, Forall_forall.
      intros k _. by rewrite filter_cons, Hx.
Qed.

(** X15. [status] has no NOT NULL constraint, and the count query compares
    with [=], which NULL never satisfies.  So when some row has no status
    the status breakdown has the key [None] with the count 0, and in every
    case its counts add up to the number of rows that have a status, not to
    [total_items]. *)
Theorem status_breakdown_skips_null (t : MediaTable) :
  ∃ stats,
    get_statistics (Some t) = (Ok stats, Some t)
    ∧ status_breakdown stats !! None
      = (if bool_decide (None ∈ row_status <$> rows t) then Some 0%nat else None)
    ∧ sum_values (status_breakdown stats)
      = length (filter (λ r, is_Some (row_status r)) (rows t)).
Proof.
  exists (statistics_of t). split; [apply get_statistics_Some|]. split.
  - simpl. rewrite breakdown_of_lookup, lookup_empty, count_where_None.
    unfold select_distinct.
    apply (f_equal (λ b : bool, if b then Some 0%nat else None)).
    apply bool_decide_ext, elem_of_remove_dups.
  - simpl. unfold breakdown_of, select_distinct.
    rewrite sum_values_foldl_insert.
    + unfold select_count_where, sum_values. rewrite map_fold_empty. simpl.
      apply sum_counts_non_null; [apply NoDup_remove_dups|].
      intros r Hr. apply elem_of_remove_dups, list_elem_of_fmap. eauto.
    + apply NoDup_remove_dups.
    + intros k _. apply lookup_empty.
Qed.

(** *** The range of the average *)

Lemma length_omap_le {A B} (f : A → option B) (l : list A) :
  (length (omap f l) ≤ length l)%nat.
Proof.
  induction l as [|x l IH]; [done|]. cbn [omap list_omap length].
  destruct (f x); cbn [length]; lia.
Qed.

(** X16. When every rating in the store lies between 0 and 10, as the entry
    form requires, and the table has fewer than [2 ^ 53 / 10] rows, as every
    table that SQLite can hold has, the average reported by [get_statistics]
    is the binary64 number of a whole number of tenths between 0 and 10. *)
Theorem average_rating_in_range (t : MediaTable) :
  (∀ r q, r ∈ rows t → row_rating r = Some q → (0 ≤ q ≤ Qc_of_Z 10)%Qc) →
  10 * Z.of_nat (length (rows t)) < 2 ^ 53 →
  ∃ stats (tenths : Z),
    get_statistics (Some t) = (Ok stats, Some t)
    ∧ 0 ≤ tenths ≤ 100
    ∧ average_rating stats = to_double (tenths # 10).
Proof.
  intros Hrange Hrows. exists (statistics_of t).
  assert (Hall : Forall (λ q, (0 ≤ q ≤ Qc_of_Z 10)%Qc)
                   (omap row_rating (rows t))).
  { apply Forall_forall. intros q (r & Hr & Hq)%list_elem_of_omap. eauto. }
  pose proof (length_omap_le row_rating (rows t)) as Hlen.
  rewrite average_rating_of.
  destruct (omap row_rating (rows t)) as [|q l] eqn:Hl.
  - exists 0. split; [apply get_statistics_Some|]. split; [lia|].
    by apply Finite_eq.
  - destruct (binary64_mean_bounded (q :: l)) as (avg & -> & Havg);
      [done|done|lia|].
    case_bool_decide.
    + exists 0. split; [apply get_statistics_Some|]. split; [lia|].
      by apply Finite_eq.
    + destruct (round1_bounded avg Havg) as (tenths & Htenths & ->).
      exists tenths. split; [apply get_statistics_Some|]. done.
Qed.

Lemma average_rating_in_range_witness :
  ∃ stats (tenths : Z),
    get_statistics (Some ten_ratings) = (Ok stats, Some ten_ratings)
    ∧ 0 ≤ tenths ≤ 100
    ∧ average_rating stats = to_double (tenths # 10).
Proof.
  apply average_rating_in_range.
  - intros r q Hr Hq.
    assert (Hin : q ∈ omap row_rating (rows ten_ratings))
      by (apply list_elem_of_omap; eauto).
    clear Hr Hq.
    assert (Hall : Forall (λ q : Qc,
                             Qle_bool 0 q && Qle_bool q (Qc_of_Z 10) = true)
                     (omap row_rating (rows ten_ratings))).
    { repeat (apply Forall_cons_2; [vm_compute; reflexivity|]).
      apply Forall_nil_2. }
    pose proof (proj1 (Forall_forall _ _) Hall q Hin) as Hq.
    apply andb_true_iff in Hq as [H0 H10].
    apply Qle_bool_iff in H0, H10. done.
  - vm_compute. reflexivity.
Defined.

(** * Further properties of the user registry *)

Lemma select_usernames_perm t : select_usernames t ≡ₚ username <$> user_rows t.
Proof. apply merge_sort_Permutation. Qed.

Lemma select_usernames_sorted t : StronglySorted String.le (select_usernames t).
Proof.
  unfold select_usernames.
  apply (StronglySorted_merge_sort String.le).
Qed.

(** X17. On a registry that has its Users table, [get_all_users] returns
    every registered username once, in ascending order, and changes
    nothing. *)
Theorem get_all_users_sorted (w : World) (db : Database) (t : UsersTable) :
  w !! "users.db" = Some (DbFile db) →
  Users_table db = Some t →
  ∃ users,
    get_all_users w = (Ok users, w)
    ∧ users ≡ₚ registered w
    ∧ StronglySorted String.le users.
Proof.
  intros Hw Ht. exists (select_usernames t).
  split; [by apply (get_all_users_run _ db)|]. split.
  - unfold registered. rewrite Hw, Ht. apply select_usernames_perm.
  - apply select_usernames_sorted.
Qed.

Lemma get_all_users_sorted_witness :
  ∃ users,
    get_all_users two_libraries = (Ok users, two_libraries)
    ∧ users ≡ₚ registered two_libraries
    ∧ StronglySorted String.le users.
Proof.
  apply (get_all_users_sorted two_libraries
           {| Users_table :=
                Some {| user_rows :=
                          [ {| user_id := 1; username := "bob";
                               created_at := Some "2024-01-05 09:00:00" |};
                            {| user_id := 2; username := "ann";
                               created_at := Some "2024-01-06 09:00:00" |} ];
                        user_seq := 2 |};
              Media_table := None |}
           {| user_rows :=
                [ {| user_id := 1; username := "bob";
                     created_at := Some "2024-01-05 09:00:00" |};
                  {| user_id := 2; username := "ann";
                     created_at := Some "2024-01-06 09:00:00" |} ];
              user_seq := 2 |}).
  - vm_compute. reflexivity.
  - reflexivity.
Defined.

(** X18. When the setup script has not run, so that ["users.db"] does not
    exist, a new [UserManager] creates an empty database and its
    [create_user] raises [Exception] for the missing Users table; the INSERT
    fails before [setup_media_database] is reached, so no store is
    provisioned. *)
Theorem create_user_without_setup (now u : string) (w : World) :
  w !! "users.db" = None →
  UserManager (create_user now u) w
  = (Raise (Exception "Error creating user: no such table: Users"),
     <["users.db" := DbFile empty_database]> w)
  ∧ (<["users.db" := DbFile empty_database]> w) !! media_db_name u
    = w !! media_db_name u.
Proof.
  intros Hw. split.
  - unfold UserManager, UserManager_init, except_sqlite3_Error, connect.
    unfold mbind at 1, method_bind at 1. rewrite Hw.
    unfold create_user. unfold mbind at 1, method_bind at 1.
    rewrite insert_user_run, lookup_insert_eq. reflexivity.
  - apply lookup_insert_ne. symmetry. apply media_db_name_not_users.
Qed.

Lemma create_user_without_setup_witness :
  UserManager (create_user "2024-03-01 09:00:00" "ann") ∅
  = (Raise (Exception "Error creating user: no such table: Users"),
     <["users.db" := DbFile empty_database]> ∅)
  ∧ (<["users.db" := DbFile empty_database]> (∅ : World))
      !! media_db_name "ann"
    = (∅ : World) !! media_db_name "ann".
Proof. apply create_user_without_setup. apply lookup_empty. Defined.

Lemma setup_users_database_run (w : World) :
  setup_users_database w
  = match w !! "users.db" with
    | Some NotDatabase =>
        (Raise (OperationalError "unable to open database file"), w)
    | Some (DbFile db) =>
        (Ok (), <["users.db" := DbFile (create_Users_if_not_exists db).2]> w)
    | None =>
        (Ok (), <["users.db" :=
                    DbFile {| Users_table :=
                                Some {| user_rows := []; user_seq := 0 |};
                              Media_table := None |}]> w)
    end.
Proof.
  unfold setup_users_database, mbind, method_bind, connect, on_connection,
    USERS_DB.
  destruct (w !! "users.db") as [[|db]|] eqn:Hw.
  - done.
  - by rewrite Hw.
  - rewrite lookup_insert_eq. simpl. by rewrite insert_insert_eq.
Qed.

(** X19. The setup script can be run at any time: unless ["users.db"] cannot
    be opened as a database it succeeds, it keeps every registered user,
    running it again changes nothing, and after it [get_all_users] returns
    instead of raising. *)
Theorem setup_users_database_keeps_users (w : World) :
  w !! "users.db" ≠ Some NotDatabase →
  ∃ w',
    setup_users_database w = (Ok (), w')
    ∧ registered w' = registered w
    ∧ setup_users_database w' = (Ok (), w')
    ∧ ∃ users, get_all_users w' = (Ok users, w') ∧ users ≡ₚ registered w.
Proof.
  intros Hok. rewrite setup_users_database_run.
  destruct (w !! "users.db") as [[|db]|] eqn:Hw; [done| |].
  - eexists. split; [done|].
    set (db' := (create_Users_if_not_exists db).2).
    assert (Hreg : registered (<["users.db" := DbFile db']> w) = registered w).
    { unfold registered. rewrite lookup_insert_eq, Hw. simpl.
      by destruct (Users_table db). }
    split; [done|]. split.
    + rewrite setup_users_database_run, lookup_insert_eq, insert_insert_eq.
      do 3 f_equal. unfold db'. simpl. by destruct (Users_table db), db.
    + destruct (Users_table db') as [t'|] eqn:Ht'.
      * exists (select_usernames t'). split.
        -- apply (get_all_users_run _ db'); [apply lookup_insert_eq|done].
        -- rewrite <- Hreg. unfold registered.
           rewrite lookup_insert_eq, Ht'. apply select_usernames_perm.
      * unfold db' in Ht'. simpl in Ht'. by destruct (Users_table db).
  - eexists. split; [done|].
    assert (Hreg : registered
                     (<["users.db" :=
                          DbFile {| Users_table :=
                                      Some {| user_rows := []; user_seq := 0 |};
                                    Media_table := None |}]> w)
                   = registered w).
    { unfold registered. by rewrite lookup_insert_eq, Hw. }
    split; [done|]. split.
    + by rewrite setup_users_database_run, lookup_insert_eq, insert_insert_eq.
    + eexists. split.
      * eapply get_all_users_run; [apply lookup_insert_eq|done].
      * rewrite <- Hreg. unfold registered. rewrite lookup_insert_eq. simpl.
        apply select_usernames_perm.
Qed.

Lemma setup_users_database_keeps_users_witness :
  ∃ w',
    setup_users_database two_libraries = (Ok (), w')
    ∧ registered w' = registered two_libraries
    ∧ setup_users_database w' = (Ok (), w')
    ∧ ∃ users,
        get_all_users w' = (Ok users, w') ∧ users ≡ₚ registered two_libraries.
Proof.
  apply setup_users_database_keeps_users.
  vm_compute. discriminate.
Defined.

(** X20. Provisioning again does not wipe a store: when the file of a user
    already holds a Media table, [setup_media_database] succeeds and leaves
    the working directory, and with it every stored row, as it was. *)
Theorem setup_media_database_keeps_rows
    (u : string) (w : World) (db : Database) (t : MediaTable) :
  w !! ("media_library_" +:+ u +:+ ".db") = Some (DbFile db) →
  Media_table db = Some t →
  setup_media_database u w = (Ok (), w).
Proof.
  intros Hw Ht. rewrite setup_media_database_run.
  unfold media_db_name. rewrite Hw. f_equal.
  apply insert_id. rewrite Hw. do 2 f_equal.
  unfold create_Media_if_not_exists. simpl. rewrite Ht.
  rewrite <- Ht. by rewrite database_eta.
Qed.

Lemma setup_media_database_keeps_rows_witness :
  setup_media_database "ann"
    {[ "media_library_ann.db" :=
         DbFile {| Users_table := None; Media_table := Some alpha_beta |} ]}
  = (Ok (),
     {[ "media_library_ann.db" :=
          DbFile {| Users_table := None; Media_table := Some alpha_beta |} ]}).
Proof.
  apply (setup_media_database_keeps_rows "ann" _
           {| Users_table := None; Media_table := Some alpha_beta |}
           alpha_beta).
  - vm_compute. reflexivity.
  - reflexivity.
Defined.

(** ** The registry only grows *)

Lemma registered_insert_same_users (w : World) db_name db' :
  Users_table db' = match w !! db_name with
                    | Some (DbFile db) => Users_table db
                    | _ => None
                    end →
  registered (<[db_name := DbFile db']> w) = registered w.
Proof.
  intros Husers. unfold registered.
  destruct (decide (db_name = "users.db")) as [->|Hne].
  - rewrite lookup_insert_eq, Husers.
    by destruct (w !! "users.db") as [[|db]|].
  - by rewrite lookup_insert_ne.
Qed.

Lemma registered_setup_users_database w :
  registered (setup_users_database w).2 = registered w.
Proof.
  rewrite setup_users_database_run.
  destruct (w !! "users.db") as [[|db]|] eqn:Hw; simpl; [done| |].
  - unfold registered. rewrite lookup_insert_eq, Hw. simpl.
    by destruct (Users_table db).
  - unfold registered. by rewrite lookup_insert_eq, Hw.
Qed.

Lemma registered_UserManager_init w :
  registered (UserManager_init w).2 = registered w.
Proof.
  unfold UserManager_init, except_sqlite3_Error, connect.
  destruct (w !! "users.db") as [[|db]|] eqn:Hw; simpl; [done..|].
  unfold registered. by rewrite lookup_insert_eq, Hw.
Qed.

Lemma registered_get_all_users w :
  registered (get_all_users w).2 = registered w.
Proof.
  unfold get_all_users, except_sqlite3_Error, on_connection, on_Users, query.
  destruct (w !! "users.db") as [[|db]|] eqn:Hw; simpl; [done| |done].
  destruct (Users_table db) as [t|] eqn:Ht; simpl;
    apply registered_insert_same_users; by rewrite Hw.
Qed.

Lemma registered_insert_other (w : World) db_name f :
  db_name ≠ "users.db" → registered (<[db_name := f]> w) = registered w.
Proof. intros Hne. unfold registered. by rewrite lookup_insert_ne. Qed.

Lemma registered_setup_media_database u w :
  registered (setup_media_database u w).2 = registered w.
Proof.
  rewrite setup_media_database_run.
  destruct (w !! media_db_name u) as [[|db]|]; simpl; [done|..];
    apply registered_insert_other, media_db_name_not_users.
Qed.

Lemma registered_DatabaseModel db_name c w :
  registered (DatabaseModel db_name (store_run c) w).2 = registered w.
Proof.
  rewrite DatabaseModel_run.
  destruct (w !! db_name) as [[|db]|] eqn:Hw; [done| |].
  - destruct (store_run c (Media_table db)). simpl.
    apply registered_insert_same_users. by rewrite Hw.
  - destruct (store_run c None). simpl.
    apply registered_insert_same_users. by rewrite Hw.
Qed.

(** The registry after [create_user]: as before, or with the new username
    at the end. *)
Lemma registered_create_user now u w :
  registered (create_user now u w).2 = registered w
  ∨ ((u ∉ registered w)
     ∧ registered (create_user now u w).2 = registered w ++ [u]).
Proof.
  assert (Hstate :
    (create_user now u w).2
    = match on_connection "users.db" (on_Users (insert_user now u)) w with
      | (Ok _, wa) => (setup_media_database u wa).2
      | (Raise _, wa) => wa
      end).
  { unfold create_user, mbind, method_bind.
    destruct (on_connection _ _ w) as [[[]|e] wa]; simpl.
    - destruct (setup_media_database u wa) as [[[]|e] w1]; [done|].
      by destruct e.
    - by destruct e. }
  rewrite Hstate, insert_user_run.
  destruct (w !! "users.db") as [[|db]|] eqn:Hw; [by left| |by left].
  destruct (Users_table db) as [t|] eqn:Ht; [|by left].
  case_bool_decide as Hin; [by left|].
  right. rewrite registered_setup_media_database.
  unfold registered. rewrite lookup_insert_eq, Hw, Ht. simpl.
  split; [done|]. by apply registered_with_user.
Qed.

Lemma registered_run c w :
  registered (run c w).2 = registered w
  ∨ ∃ u, (u ∉ registered w) ∧ registered (run c w).2 = registered w ++ [u].
Proof.
  destruct c as [|u| | |now u|db_name c]; simpl.
  - left. apply registered_setup_users_database.
  - left. apply registered_setup_media_database.
  - left. unfold UserManager, mbind, method_bind.
    pose proof (registered_UserManager_init w).
    by destruct (UserManager_init w) as [[[]|e] w1].
  - left. unfold UserManager, mbind, method_bind.
    pose proof (registered_UserManager_init w) as Hinit.
    destruct (UserManager_init w) as [[[]|e] w1]; [|done].
    simpl in Hinit. by rewrite void_state, registered_get_all_users.
  - unfold UserManager, mbind, method_bind.
    pose proof (registered_UserManager_init w) as Hinit.
    destruct (UserManager_init w) as [[[]|e] w1]; [|by left].
    simpl in Hinit. rewrite void_state, <- Hinit.
    destruct (registered_create_user now u w1) as [?|[? ?]]; [by left|].
    right. by exists u.
  - left. apply registered_DatabaseModel.
Qed.

(** X21. The registry only grows: whatever calls are made on the working
    directory, the usernames registered before are still registered after,
    in the same order and ahead of any new one; nothing removes or renames
    a user. *)
Theorem registry_only_grows (cs : list call) (w : World) :
  registered w `prefix_of` registered (runs cs w).
Proof.
  revert w. induction cs as [|c cs IH]; intros w; [done|].
  unfold runs. simpl. fold (runs cs (run c w).2).
  etrans; [|apply IH].
  destruct (registered_run c w) as [->|(u & _ & ->)]; [done|].
  by apply prefix_app_r.
Qed.

(** X22. Usernames stay unique: if the registry holds no username twice,
    no sequence of calls makes it hold one twice. *)
Theorem registry_stays_unique (cs : list call) (w : World) :
  NoDup (registered w) → NoDup (registered (runs cs w)).
Proof.
  revert w. induction cs as [|c cs IH]; intros w Hnd; [done|].
  unfold runs. simpl. apply IH.
  destruct (registered_run c w) as [->|(u & Hu & ->)]; [done|].
  apply NoDup_app. split; [done|]. split; [|apply NoDup_singleton].
  intros x Hx ->%list_elem_of_singleton. done.
Qed.

Lemma registry_stays_unique_witness :
  NoDup (registered
           (runs [SetupUsersDatabase;
                  CreateUser "2024-03-01 09:00:00" "ann";
                  CreateUser "2024-03-02 09:00:00" "ann";
                  CreateUser "2024-03-03 09:00:00" "bob"] ∅)).
Proof.
  apply registry_stays_unique. vm_compute. constructor.
Defined.

(** ** Isolation of the stores *)

Lemma DatabaseModel_other_path {A} db_name other (m : method Store A) (w : World) :
  db_name ≠ other → (DatabaseModel db_name m w).2 !! other = w !! other.
Proof.
  intros Hne. rewrite DatabaseModel_run.
  destruct (w !! db_name) as [[|db]|]; [done| |].
  - destruct (m (Media_table db)). simpl. by rewrite lookup_insert_ne.
  - destruct (m None). simpl. by rewrite lookup_insert_ne.
Qed.

Lemma DatabaseModel_result_same_file {A} db_name (m : method Store A)
    (w w' : World) :
  w' !! db_name = w !! db_name →
  (DatabaseModel db_name m w').1 = (DatabaseModel db_name m w).1.
Proof.
  intros Hsame. rewrite !DatabaseModel_run, Hsame.
  destruct (w !! db_name) as [[|db]|]; [done| |].
  - by destruct (m (Media_table db)).
  - by destruct (m None).
Qed.

(** X23. The stores of two users are isolated: a call on the store of one
    user, whatever it is, leaves the file of any other user untouched, so
    the other user's listing is the same before and after, and it does not
    change the registry. *)
Theorem stores_are_isolated (u other : string) (c : store_call) (w : World) :
  u ≠ other →
  let w' := (DatabaseModel (media_db_name u) (store_run c) w).2 in
  w' !! media_db_name other = w !! media_db_name other
  ∧ (DatabaseModel (media_db_name other) get_all_records w').1
    = (DatabaseModel (media_db_name other) get_all_records w).1
  ∧ registered w' = registered w.
Proof.
  intros Hne w'.
  assert (Hfile : w' !! media_db_name other = w !! media_db_name other).
  { apply DatabaseModel_other_path. by intros ?%media_db_name_inj. }
  split; [done|]. split.
  - by apply DatabaseModel_result_same_file.
  - apply registered_DatabaseModel.
Qed.

Lemma stores_are_isolated_witness :
  let w' := (DatabaseModel (media_db_name "ann")
               (store_run (DeleteRecord 1)) two_libraries).2 in
  w' !! media_db_name "bob" = two_libraries !! media_db_name "bob"
  ∧ (DatabaseModel (media_db_name "bob") get_all_records w').1
    = (DatabaseModel (media_db_name "bob") get_all_records two_libraries).1
  ∧ registered w' = registered two_libraries.
Proof. apply stores_are_isolated. discriminate. Defined.

(** X24. Registering a user touches nobody else's data: whether
    [create_user] returns or raises, the file of every other user is what
    it was, and so is what that user's store lists. *)
Theorem create_user_keeps_other_stores (now u other : string) (w : World) :
  u ≠ other →
  let w' := (create_user now u w).2 in
  w' !! media_db_name other = w !! media_db_name other
  ∧ (DatabaseModel (media_db_name other) get_all_records w').1
    = (DatabaseModel (media_db_name other) get_all_records w).1.
Proof.
  intros Hne w'.
  assert (Hfile : w' !! media_db_name other = w !! media_db_name other).
  { unfold w'.
    assert (Hstate :
      (create_user now u w).2
      = match on_connection "users.db" (on_Users (insert_user now u)) w with
        | (Ok _, wa) => (setup_media_database u wa).2
        | (Raise _, wa) => wa
        end).
    { unfold create_user, mbind, method_bind.
      destruct (on_connection _ _ w) as [[[]|e] wa]; simpl.
      - destruct (setup_media_database u wa) as [[[]|e] w1]; [done|].
        by destruct e.
      - by destruct e. }
    rewrite Hstate, insert_user_run.
    destruct (w !! "users.db") as [[|db]|] eqn:Hw; [done| |done].
    destruct (Users_table db) as [t|] eqn:Ht; [|done].
    case_bool_decide as Hin; [done|].
    rewrite setup_media_database_run.
    assert (Hother : media_db_name u ≠ media_db_name other)
      by by intros ?%media_db_name_inj.
    destruct (_ !! media_db_name u) as [[|dbm]|]; simpl;
      rewrite ?(lookup_insert_ne _ (media_db_name u)) by done;
      apply lookup_insert_ne; symmetry; apply media_db_name_not_users. }
  split; [done|]. by apply DatabaseModel_result_same_file.
Qed.

Lemma create_user_keeps_other_stores_witness :
  let w' := (create_user "2024-03-01 09:00:00" "cat" two_libraries).2 in
  w' !! media_db_name "bob" = two_libraries !! media_db_name "bob"
  ∧ (DatabaseModel (media_db_name "bob") get_all_records w').1
    = (DatabaseModel (media_db_name "bob") get_all_records two_libraries).1.
Proof. apply create_user_keeps_other_stores. discriminate. Defined.

Lemma store_run_None_raises c :
  ∃ msg, store_run c None = (Raise (Exception msg), None).
Proof. destruct c; eexists; reflexivity. Qed.

(** X25. A [DatabaseModel] never provisions: opened, as the application
    opens it, on the store path of a username that is a portable file name,
    where there is no file yet, it creates an empty database, and every one
    of its methods then raises [Exception] for the missing Media table and
    leaves the database without one. *)
Theorem DatabaseModel_on_missing_file
    (u : string) (c : store_call) (w : World) :
  portable_name u →
  w !! media_db_name u = None →
  ∃ msg,
    DatabaseModel (media_db_name u) (store_run c) w
    = (Raise (Exception msg),
       <[media_db_name u := DbFile empty_database]> w).
Proof.
  intros _ Hw. destruct (store_run_None_raises c) as [msg Hrun].
  exists msg. by rewrite DatabaseModel_run, Hw, Hrun.
Qed.

Lemma DatabaseModel_on_missing_file_witness :
  ∃ msg,
    DatabaseModel (media_db_name "zed") (store_run GetAllRecords) two_libraries
    = (Raise (Exception msg),
       <[media_db_name "zed" := DbFile empty_database]> two_libraries).
Proof.
  apply DatabaseModel_on_missing_file.
  - split; [reflexivity|simpl; lia].
  - vm_compute. reflexivity.
Defined.

(** * Properties of the list view and the entry form *)

(** ** Words of a string *)

Lemma string_app_cons c (s t : string) :
  String c s +:+ t = String c (s +:+ t).
Proof. reflexivity. Qed.

Lemma string_app_nil_l (s : string) : "" +:+ s = s.
Proof. reflexivity. Qed.

Lemma string_app_nil_r (s : string) : s +:+ "" = s.
Proof.
  induction s as [|c s IH]; [done|]. by rewrite string_app_cons, IH.
Qed.

Lemma string_app_assoc (s t u : string) : (s +:+ t) +:+ u = s +:+ t +:+ u.
Proof.
  induction s as [|c s IH]; [done|]. by rewrite !string_app_cons, IH.
Qed.

Lemma string_app_nonempty (s t : string) : s ≠ "" → s +:+ t ≠ "".
Proof. by destruct s. Qed.

(** Reading a word that has no whitespace moves it into the run. *)
Lemma py_split_from_word cur w rest :
  no_space w = true →
  py_split_from cur (w +:+ rest) = py_split_from (cur +:+ w) rest.
Proof.
  revert cur. induction w as [|c w IH]; intros cur Hw.
  - by rewrite string_app_nil_l, string_app_nil_r.
  - simpl in Hw. apply andb_true_iff in Hw as [Hc Hw].
    apply negb_true_iff in Hc.
    rewrite string_app_cons. cbn [py_split_from]. rewrite Hc.
    rewrite IH by done. by rewrite string_app_assoc.
Qed.

(** A whitespace character ends a run that is not empty. *)
Lemma py_split_from_space cur c rest :
  py_isspace c = true → cur ≠ "" →
  py_split_from cur (String c rest) = cur :: py_split_from "" rest.
Proof. intros Hc Hcur. cbn [py_split_from]. rewrite Hc. by destruct cur. Qed.

Lemma py_split_from_char cur c rest :
  py_isspace c = false →
  py_split_from cur (String c rest)
  = py_split_from (cur +:+ String c "") rest.
Proof. intros Hc. cbn [py_split_from]. by rewrite Hc. Qed.

Lemma py_split_from_end cur : cur ≠ "" → py_split_from cur "" = [cur].
Proof. by destruct cur. Qed.

Lemma py_rstrip_comma_app (d : string) :
  py_rstrip_comma (d +:+ ",") = py_rstrip_comma d.
Proof.
  induction d as [|c d IH]; [done|].
  rewrite string_app_cons. cbn [py_rstrip_comma]. by rewrite IH.
Qed.

Lemma str_truthy_nonempty (s : string) : s ≠ "" → str_truthy (Some s) = true.
Proof. by destruct s. Qed.

(** The words of a date built by the form. *)
Lemma py_split_release_date month day year :
  month ≠ "" → day ≠ "" → year ≠ "" →
  no_space month = true → no_space day = true → no_space year = true →
  py_split (month +:+ " " +:+ day +:+ ", " +:+ year)
  = [month; day +:+ ","; year].
Proof.
  intros Hm Hd Hy Hsm Hsd Hsy. unfold py_split.
  rewrite py_split_from_word, string_app_nil_l by done.
  change (" " +:+ day +:+ ", " +:+ year)
    with (String " "%char (day +:+ ", " +:+ year)).
  rewrite py_split_from_space; [|reflexivity|done]. f_equal.
  rewrite py_split_from_word, string_app_nil_l by done.
  change (", " +:+ year) with (String ","%char (String " "%char year)).
  rewrite py_split_from_char by reflexivity.
  rewrite py_split_from_space; [|reflexivity|by apply string_app_nonempty].
  f_equal.
  rewrite <- (string_app_nil_r year) at 1.
  rewrite py_split_from_word, string_app_nil_l by done.
  by apply py_split_from_end.
Qed.

(** X26. A release date survives the form and the list: when month, day and
    year are chosen, have no whitespace in them and the day does not end in
    a comma, the date that [_save] builds is taken apart by
    [_populate_fields] into the same month, day and year, and
    [_refresh_treeview] shows that year. *)
Theorem release_date_round_trip (month day year : string) :
  month ≠ "" → day ≠ "" → year ≠ "" →
  no_space month = true → no_space day = true → no_space year = true →
  no_trailing_comma day →
  _populate_fields_date (Some (_save_release_date month day year))
  = Some (month, day, year)
  ∧ _refresh_treeview_year (Some (_save_release_date month day year)) = year.
Proof.
  intros Hm Hd Hy Hsm Hsd Hsy Hcomma.
  unfold _save_release_date.
  rewrite !str_truthy_nonempty by done. cbn [andb].
  unfold _populate_fields_date, _refresh_treeview_year.
  rewrite str_truthy_nonempty by by apply string_app_nonempty.
  unfold default. cbn [from_option]. unfold Datatypes.id.
  rewrite py_split_release_date by done.
  split.
  - by rewrite py_rstrip_comma_app, Hcomma.
  - reflexivity.
Qed.

Lemma release_date_round_trip_witness :
  _populate_fields_date (Some (_save_release_date "March" "5" "2021"))
  = Some ("March", "5", "2021")
  ∧ _refresh_treeview_year (Some (_save_release_date "March" "5" "2021"))
    = "2021".
Proof.
  apply release_date_round_trip; (discriminate || reflexivity).
Defined.

(** ** The filters of the list view *)

Lemma filter_by_search_Some q (l : list Media) :
  Forall (λ m, is_Some (title m)) l →
  filter_by_search q l
  = Some (filter (λ m, search_matches q m = true) l).
Proof.
  induction 1 as [|m l [ti Hti] _ IH]; [done|].
  cbn [filter_by_search]. rewrite Hti, IH. f_equal.
  rewrite filter_cons.
  assert (Hm : search_matches q m = contains q (py_lower ti))
    by (unfold search_matches; by rewrite Hti).
  destruct (contains q (py_lower ti)) eqn:Hc.
  - by rewrite decide_True.
  - rewrite decide_False; [done|]. by rewrite Hm.
Qed.

(** X29. On a list whose items all have a title, [_apply_filters] does not
    raise; what it shows is a sub-list of the loaded list, in the same
    order, made of exactly the items that pass the three criteria, where a
    blank search and the choice ["All"] mean no restriction. *)
Theorem apply_filters_exact
    (search_var filter_type filter_status : string) (l : list Media) :
  Forall (λ m, is_Some (title m)) l →
  ∃ shown,
    _apply_filters search_var filter_type filter_status l = Some shown
    ∧ shown `sublist_of` l
    ∧ ∀ m, m ∈ shown
           ↔ m ∈ l ∧ passes_filters search_var filter_type filter_status m.
Proof.
  intros Htitles. unfold _apply_filters, passes_filters.
  set (q := py_lower (py_strip search_var)).
  assert (∃ l1, (if str_truthy (Some q) then filter_by_search q l else Some l)
                = Some l1
                ∧ l1 `sublist_of` l
                ∧ ∀ m, m ∈ l1
                       ↔ m ∈ l ∧ (q = "" ∨ search_matches q m = true))
    as (l1 & -> & Hsub1 & Hin1).
  { destruct q as [|c q'] eqn:Hq; cbn [str_truthy].
    - exists l. split; [done|]. split; [done|]. intros m. naive_solver.
    - rewrite filter_by_search_Some by done. eexists. split; [done|].
      split; [apply sublist_filter|]. intros m.
      rewrite list_elem_of_filter. naive_solver. }
  cbn [mbind option_bind].
  eexists. split; [done|].
  split.
  - etrans; [|exact Hsub1].
    repeat case_bool_decide; repeat (etrans; [apply sublist_filter|]); done.
  - intros m.
    repeat case_bool_decide; rewrite ?list_elem_of_filter, Hin1;
      naive_solver.
Qed.

Lemma apply_filters_exact_witness :
  ∃ shown,
    _apply_filters " AL " "Book" "All" (_row_to_media <$> rows alpha_beta)
    = Some shown
    ∧ shown `sublist_of` (_row_to_media <$> rows alpha_beta)
    ∧ ∀ m, m ∈ shown
           ↔ m ∈ (_row_to_media <$> rows alpha_beta)
             ∧ passes_filters " AL " "Book" "All" m.
Proof.
  apply apply_filters_exact.
  repeat constructor; by eexists.
Defined.

Lemma filter_row_to_media (P : Media → Prop) `{∀ m, Decision (P m)}
    (l : list Row) :
  filter P (_row_to_media <$> l)
  = _row_to_media <$> filter (λ r, P (_row_to_media r)) l.
Proof.
  induction l as [|r l IH]; [done|].
  rewrite fmap_cons, !filter_cons, IH.
  by destruct (decide (P (_row_to_media r))).
Qed.

(** X30. The type and status choices of the list view agree with the
    queries of the store: applied to the list that [get_all_records]
    returned, a type other than ["All"] shows the items that
    [filter_by_type] returns, and a status other than ["All"] those that
    [filter_by_status] returns, in another order. *)
Theorem apply_filters_agrees_with_store
    (ty st : string) (t : MediaTable) :
  ty ≠ "All" → st ≠ "All" →
  ∃ all by_type by_status shown_type shown_status,
    get_all_records (Some t) = (Ok all, Some t)
    ∧ filter_by_type ty (Some t) = (Ok by_type, Some t)
    ∧ filter_by_status st (Some t) = (Ok by_status, Some t)
    ∧ _apply_filters "" ty "All" all = Some shown_type
    ∧ _apply_filters "" "All" st all = Some shown_status
    ∧ shown_type ≡ₚ by_type
    ∧ shown_status ≡ₚ by_status.
Proof.
  intros Hty Hst.
  exists (_row_to_media <$> select_all t),
    (_row_to_media <$> select_by_type ty t),
    (_row_to_media <$> select_by_status st t).
  eexists _, _.
  split; [apply get_all_records_Some|].
  split; [reflexivity|]. split; [reflexivity|].
  unfold _apply_filters. change (py_lower (py_strip "")) with "".
  cbn [str_truthy mbind option_bind].
  rewrite (bool_decide_eq_true_2 (ty ≠ "All")) by done.
  rewrite (bool_decide_eq_true_2 (st ≠ "All")) by done.
  rewrite (bool_decide_eq_false_2 ("All" ≠ "All")) by (intros H; by apply H).
  split; [done|]. split; [done|].
  unfold select_all, select_by_type, select_by_status.
  rewrite !order_by_asc_perm, !order_by_desc_perm, !filter_row_to_media.
  split; apply Permutation_refl'; f_equal; apply list_filter_iff; intros r;
    simpl.
  - destruct (row_media_type r) as [x|]; simpl; [|by split].
    rewrite bool_decide_spec. split; congruence.
  - destruct (row_status r) as [x|]; simpl; [|by split].
    rewrite bool_decide_spec. split; congruence.
Qed.

Lemma apply_filters_agrees_with_store_witness :
  ∃ all by_type by_status shown_type shown_status,
    get_all_records (Some alpha_beta) = (Ok all, Some alpha_beta)
    ∧ filter_by_type "Book" (Some alpha_beta) = (Ok by_type, Some alpha_beta)
    ∧ filter_by_status "Completed" (Some alpha_beta)
      = (Ok by_status, Some alpha_beta)
    ∧ _apply_filters "" "Book" "All" all = Some shown_type
    ∧ _apply_filters "" "All" "Completed" all = Some shown_status
    ∧ shown_type ≡ₚ by_type
    ∧ shown_status ≡ₚ by_status.
Proof. apply apply_filters_agrees_with_store; discriminate. Defined.

(** * Properties of the lab script *)

Lemma Ex1_loop_printable current rows :
  Forall printable rows →
  ∃ out,
    Ex1_loop current rows = (out, None)
    ∧ length out
      = (length rows + headers current (stripped_specialities rows))%nat.
Proof.
  intros Hrows. revert current.
  induction Hrows as [|[spec name] rows [[sp Hsp] Hname] _ IH]; intros current.
  - by exists [].
  - simpl in Hsp, Hname. subst spec.
    apply last_is_Some in Hname as [lastname Hlast].
    destruct (IH (Some (py_strip sp))) as (out & Hout & Hlen).
    cbn [Ex1_loop]. rewrite Hlast, Hout.
    eexists. split; [done|].
    unfold stripped_specialities in *. cbn [omap list_omap fmap option_fmap
      option_map fst headers].
    rewrite length_app. cbn [length]. rewrite Hlen.
    case_bool_decide; simpl; lia.
Qed.

Lemma headers_sorted c (l : list string) :
  StronglySorted String.le (c :: l) →
  S (headers (Some c) l) = length (remove_dups (c :: l)).
Proof.
  revert c. induction l as [|y l IH]; intros c Hsorted; [done|].
  apply StronglySorted_inv in Hsorted as [Hrest Hc].
  specialize (IH y Hrest).
  cbn [headers]. destruct (decide (y = c)) as [->|Hne].
  - rewrite bool_decide_eq_false_2 by (intros H; by apply H).
    change (remove_dups (c :: c :: l))
      with (if decide_rel (∈) c (c :: l)
            then remove_dups (c :: l) else c :: remove_dups (c :: l)).
    destruct (decide_rel (∈) c (c :: l)) as [_|Hnin]; [done|].
    destruct Hnin. left.
  - rewrite bool_decide_eq_true_2 by congruence.
    change (remove_dups (c :: y :: l))
      with (if decide_rel (∈) c (y :: l)
            then remove_dups (y :: l) else c :: remove_dups (y :: l)).
    destruct (decide_rel (∈) c (y :: l)) as [Hin|_].
    + exfalso. apply Hne.
      apply (anti_symm String.le).
      * apply StronglySorted_inv in Hrest as [_ Hy].
        apply elem_of_cons in Hin as [->|Hin]; [done|].
        by apply (proj1 (Forall_forall _ _) Hy).
      * by inversion Hc.
    + simpl. by rewrite IH.
Qed.

(** X27. On rows that all have a speciality and a name that is not blank,
    sorted by speciality, the loop of exercise 1 runs to the end and prints
    one line per doctor and one header per distinct speciality: no
    speciality is announced twice. *)
Theorem Ex1_one_header_per_speciality (rows : list (option string * string)) :
  Forall printable rows →
  StronglySorted String.le (stripped_specialities rows) →
  ∃ out,
    Ex1 rows = (out, None)
    ∧ length out
      = (length rows + length (remove_dups (stripped_specialities rows)))%nat.
Proof.
  intros Hrows Hsorted.
  destruct (Ex1_loop_printable None rows Hrows) as (out & Hout & Hlen).
  exists out. split; [done|]. rewrite Hlen. f_equal.
  destruct (stripped_specialities rows) as [|c l]; [done|].
  rewrite <- headers_sorted by done.
  cbn [headers]. by rewrite bool_decide_eq_true_2 by done.
Qed.

Lemma Ex1_one_header_per_speciality_witness :
  ∃ out,
    Ex1 Ex0_rows = (out, None)
    ∧ length out
      = (length Ex0_rows
         + length (remove_dups (stripped_specialities Ex0_rows)))%nat.
Proof.
  apply Ex1_one_header_per_speciality.
  - unfold Ex0_rows.
    repeat (apply Forall_cons_2;
            [split; [by eexists|vm_compute; discriminate]|]).
    apply Forall_nil_2.
  - apply (bool_decide_unpack _). vm_compute. reflexivity.
Defined.

(** X28. The loop of exercise 1 stops at the first row it cannot print: a
    row whose speciality is NULL raises [AttributeError], a row whose name
    is blank raises [IndexError] after its header; everything printed for
    the rows before it has been printed, and nothing for the rows after
    it. *)
Theorem Ex1_stops_at_first_bad_row
    (good rest : list (option string * string)) (bad : option string * string) :
  Forall printable good → ¬ printable bad →
  ∃ out,
    Ex1 (good ++ bad :: rest) = (out, Some (error_of bad))
    ∧ (Ex1 good).1 `prefix_of` out
    ∧ (length out ≤ length (Ex1 good).1 + 1)%nat.
Proof.
  intros Hgood Hbad. unfold Ex1. generalize (@None string).
  induction Hgood as [|[spec name] good [[sp Hsp] Hname] _ IH]; intros current.
  - destruct bad as [[sp|] name]; cbn [app Ex1_loop].
    + destruct (last (py_split (py_strip name))) as [lastname|] eqn:Hlast.
      * exfalso. apply Hbad. split; [by eexists|].
        simpl. apply last_is_Some. by eexists.
      * eexists. split; [done|]. split; [apply prefix_nil|].
        case_bool_decide; simpl; lia.
    + eexists. split; [done|]. split; [apply prefix_nil|]. simpl. lia.
  - simpl in Hsp, Hname. subst spec.
    apply last_is_Some in Hname as [lastname Hlast].
    destruct (IH (Some (py_strip sp))) as (out & Hout & Hpre & Hlen).
    cbn [app Ex1_loop]. rewrite Hlast, Hout.
    eexists. split; [done|].
    destruct (Ex1_loop (Some (py_strip sp)) good) as [outg errg].
    simpl in *. split.
    + apply prefix_app, prefix_cons, Hpre.
    + rewrite !length_app. simpl. lia.
Qed.

Lemma Ex1_stops_at_first_bad_row_witness :
  ∃ out,
    Ex1 ([(Some "Pediatric", "Chan")] ++ (Some "Surgeon", "  ")
         :: [(Some "Surgeon", "El-Ashry")])
    = (out, Some (error_of (Some "Surgeon", "  ")))
    ∧ (Ex1 [(Some "Pediatric", "Chan")]).1 `prefix_of` out
    ∧ (length out ≤ length (Ex1 [(Some "Pediatric", "Chan")]).1 + 1)%nat.
Proof.
  apply Ex1_stops_at_first_bad_row.
  - apply Forall_cons_2; [|apply Forall_nil_2].
    split; [by eexists|vm_compute; discriminate].
  - intros [_ H]. by apply H.
Defined.
